(** * SimplestMediaPlayer: the audio decode-and-playback pipeline

    A shallow embedding of [AudioDecoder.cpp], [VideoDecoder.cpp] and
    [MediaPlayer.cpp].  The FFmpeg and SDL libraries are collaborators: what
    they answer is part of the input (the packets a demuxer delivers, the
    results the codec and the resampler report), and the calls made on them
    are recorded in a log kept in the decoder state.

    Conventions.
    - C [int] and [int64_t] values are [Z]; [size_t] values are
      non-negative [Z]; the one narrowing conversion of the callback
      ([size_t] to [int]) is written out as [to_int].
    - [double] presentation times are rationals ([Q]): every finite double
      is one, and the clock only stores, loads and compares them.  The
      product [pts * time_base], which is only stored in the clock, is
      taken on rationals.  Where a [double] decides an integer, as in the
      timestamps [seconds * AV_TIME_BASE] and [seconds / timeBase] handed
      to [av_seek_frame], the operation is the binary64 one of
      [SpecFloat], followed by the conversion to [int64_t].
    - [float] volume is an IEEE-754 value ([spec_float]), because
      [std::clamp] is defined by comparisons and those are what decide the
      result on the special values.
    - [std::atomic] fields are plain fields; threads are interleaved at the
      granularity of the critical sections of [queueMutex]. *)

From Stdlib Require Import ZArith QArith List Bool Lia.
From Stdlib Require Import Floats.SpecFloat.
From Stdlib Require Import Init.Byte.
From Stdlib Require Strings.Ascii Strings.String.
Import ListNotations.

Open Scope Z_scope.

(** ** Outcomes of code that can abort

    [Aborted] stands for an uncaught C++ exception (a [std::vector::resize]
    to a negative [int], which converts to a [size_t] above [max_size]) or
    a null dereference; both end the process. *)

Inductive Outcome (A : Type) : Type :=
| Returned (a : A)
| Aborted.

Arguments Returned {A} a.
Arguments Aborted {A}.

Definition bind {A B : Type} (o : Outcome A) (k : A -> Outcome B) : Outcome B :=
  match o with
  | Returned a => k a
  | Aborted => Aborted
  end.

Notation "x <- o ;; k" := (bind o (fun x => k))
  (at level 61, o at next level, right associativity).

(** ** Bytes and buffers *)

Definition silence : byte := x00.

(** [memset(stream, 0, len)] on a buffer of at least [len] bytes. *)
Definition memset0 (stream : list byte) (len : Z) : list byte :=
  repeat silence (Z.to_nat len) ++ skipn (Z.to_nat len) stream.

(** [memcpy(dst + off, src + pos, n)]: [n] bytes of [src] from [pos] on
    replace the bytes of [dst] at [off .. off + n). *)
Definition memcpy (dst : list byte) (off : Z) (src : list byte) (pos n : Z)
  : list byte :=
  firstn (Z.to_nat off) dst
  ++ firstn (Z.to_nat n) (skipn (Z.to_nat pos) src)
  ++ skipn (Z.to_nat (off + n)) dst.

(** [std::vector<uint8_t>::resize(n)] called with an [int]: a negative [n]
    converts to a huge [size_t] and the call throws. *)
Definition vector_resize (n : Z) (v : list byte) : Outcome (list byte) :=
  if n <? 0 then Aborted
  else Returned (firstn (Z.to_nat n) v
                 ++ repeat silence (Z.to_nat n - length v)).

(** Narrowing of a [size_t] to a 32-bit [int]. *)
Definition to_int (x : Z) : Z := (x + 2^31) mod 2^32 - 2^31.

Definition INT_MAX : Z := 2^31 - 1.

Definition AV_TIME_BASE : Z := 1000000.

(** ** binary64

    The [double] that a rational stands for: the rational itself when it
    is a double, the nearest double (ties to even) otherwise, as for a
    decimal literal.  The quotient of the two integers is rounded once. *)
Definition to_double (q : Q) : spec_float :=
  match Qnum q with
  | Z0 => S754_zero false
  | Zpos n =>
      SFdiv 53 1024 (S754_finite false n 0) (S754_finite false (Qden q) 0)
  | Zneg n =>
      SFdiv 53 1024 (S754_finite true n 0) (S754_finite false (Qden q) 0)
  end.

(** The conversion of an [int] to [double], which is exact. *)
Definition int_to_double (z : Z) : spec_float :=
  binary_normalize 53 1024 z 0 false.

(** [x * y] and [x / y] on [double]. *)
Definition binary64_mul (x y : spec_float) : spec_float := SFmul 53 1024 x y.
Definition binary64_div (x y : spec_float) : spec_float := SFdiv 53 1024 x y.

Definition INT64_MIN : Z := - 2^63.
Definition INT64_MAX : Z := 2^63 - 1.

(** The conversion of a [double] to [int64_t]: the value is truncated
    toward zero.  Where the truncated value does not fit, and for a NaN or
    an infinity, C++ leaves the result undefined; the answer given here is
    the one of the x86-64 conversion instruction, [INT64_MIN]. *)
Definition to_int64 (x : spec_float) : Z :=
  match x with
  | S754_zero _ => 0
  | S754_finite s m e =>
      let magnitude := Z.shiftl (Zpos m) e in
      let z := if s then - magnitude else magnitude in
      if (INT64_MIN <=? z) && (z <=? INT64_MAX) then z else INT64_MIN
  | S754_infinity _ => INT64_MIN
  | S754_nan => INT64_MIN
  end.

Arguments to_double : simpl never.
Arguments int_to_double : simpl never.
Arguments binary64_mul : simpl never.
Arguments binary64_div : simpl never.
Arguments to_int64 : simpl never.

(** ** Data of the pipeline *)

(** [struct AudioFrame] of AudioDecoder.h. *)
Record AudioFrame : Type := mkAudioFrame {
  data : list byte;
  pts : Z;
  timestamp : Q
}.

(** A decoded [AVFrame] together with what the resampler reports for it:
    [swr_out_samples] is the value of [swr_get_out_samples], [swr_converted]
    the value of [swr_convert] and [swr_output] the bytes it writes. *)
Record AVFrame : Type := mkAVFrame {
  frame_pts : Z;
  swr_out_samples : Z;
  swr_converted : Z;
  swr_output : list byte
}.

(** A demuxed packet together with what the codec reports for it:
    [send_packet_ret] is the value of [avcodec_send_packet],
    [receive_frames] are the frames for which [avcodec_receive_frame]
    returns 0, in order, and [receive_stop] is the first non-zero value it
    returns after them ([AVERROR(EAGAIN)] or a decode error). *)
Record AVPacket : Type := mkAVPacket {
  stream_index : Z;
  send_packet_ret : Z;
  receive_frames : list AVFrame;
  receive_stop : Z
}.

(** One answer of [av_read_frame]: a packet, or a negative error code that
    is not the end of the file.  The end of the list is the end of file. *)
Inductive ReadResult : Type :=
| ReadPacket (p : AVPacket)
| ReadError.

(** The demuxer: the answers still to come, and where a seek leads
    ([None]: [av_seek_frame] returns a negative value). *)
Record AVFormatContext : Type := mkAVFormatContext {
  pending : list ReadResult;
  seek_table : Z -> option (list ReadResult)
}.

(** Calls made on SDL, FFmpeg and the thread library, oldest first. *)
Inductive LibCall : Type :=
| SDL_OpenAudioDevice
| SDL_PauseAudioDevice (dev : Z) (pause_on : Z)
| SDL_CloseAudioDevice (dev : Z)
| av_seek_frame_call (stream : Z) (ts : Z)
| avcodec_flush_buffers
| thread_start
| thread_join.

Definition av_read_frame (ctx : AVFormatContext)
  : option AVPacket * AVFormatContext :=
  match pending ctx with
  | [] => (None, ctx)
  | ReadError :: rest =>
      (None, {| pending := rest; seek_table := seek_table ctx |})
  | ReadPacket p :: rest =>
      (Some p, {| pending := rest; seek_table := seek_table ctx |})
  end.

Definition av_seek_frame (ctx : AVFormatContext) (ts : Z)
  : Z * AVFormatContext :=
  match seek_table ctx ts with
  | None => (-1, ctx)
  | Some l => (0, {| pending := l; seek_table := seek_table ctx |})
  end.

(** ** AudioDecoder *)

Module AudioDecoder.

(** The fields of [class AudioDecoder] that the modelled methods read or
    write.  [formatContext = None] is the null pointer. *)
Record t : Type := mk {
  formatContext : option AVFormatContext;
  audioStreamIndex : Z;
  audioDevice : Z;
  isDecoding : bool;
  playbackStarted : bool;
  playbackPaused : bool;
  shouldStop : bool;
  audioFrameQueue : list AudioFrame;
  currentTime : Q;
  audioBuffer : list byte;
  bufferPosition : Z;
  calls : list LibCall
}.

Definition set_formatContext (x : option AVFormatContext) (d : t) : t :=
  mk x (audioStreamIndex d) (audioDevice d) (isDecoding d)
     (playbackStarted d) (playbackPaused d) (shouldStop d)
     (audioFrameQueue d) (currentTime d) (audioBuffer d) (bufferPosition d)
     (calls d).

Definition set_audioDevice (x : Z) (d : t) : t :=
  mk (formatContext d) (audioStreamIndex d) x (isDecoding d)
     (playbackStarted d) (playbackPaused d) (shouldStop d)
     (audioFrameQueue d) (currentTime d) (audioBuffer d) (bufferPosition d)
     (calls d).

Definition set_isDecoding (x : bool) (d : t) : t :=
  mk (formatContext d) (audioStreamIndex d) (audioDevice d) x
     (playbackStarted d) (playbackPaused d) (shouldStop d)
     (audioFrameQueue d) (currentTime d) (audioBuffer d) (bufferPosition d)
     (calls d).

Definition set_playbackStarted (x : bool) (d : t) : t :=
  mk (formatContext d) (audioStreamIndex d) (audioDevice d) (isDecoding d)
     x (playbackPaused d) (shouldStop d)
     (audioFrameQueue d) (currentTime d) (audioBuffer d) (bufferPosition d)
     (calls d).

Definition set_playbackPaused (x : bool) (d : t) : t :=
  mk (formatContext d) (audioStreamIndex d) (audioDevice d) (isDecoding d)
     (playbackStarted d) x (shouldStop d)
     (audioFrameQueue d) (currentTime d) (audioBuffer d) (bufferPosition d)
     (calls d).

Definition set_shouldStop (x : bool) (d : t) : t :=
  mk (formatContext d) (audioStreamIndex d) (audioDevice d) (isDecoding d)
     (playbackStarted d) (playbackPaused d) x
     (audioFrameQueue d) (currentTime d) (audioBuffer d) (bufferPosition d)
     (calls d).

Definition set_audioFrameQueue (x : list AudioFrame) (d : t) : t :=
  mk (formatContext d) (audioStreamIndex d) (audioDevice d) (isDecoding d)
     (playbackStarted d) (playbackPaused d) (shouldStop d)
     x (currentTime d) (audioBuffer d) (bufferPosition d)
     (calls d).

Definition set_currentTime (x : Q) (d : t) : t :=
  mk (formatContext d) (audioStreamIndex d) (audioDevice d) (isDecoding d)
     (playbackStarted d) (playbackPaused d) (shouldStop d)
     (audioFrameQueue d) x (audioBuffer d) (bufferPosition d)
     (calls d).

Definition set_audioBuffer (x : list byte) (d : t) : t :=
  mk (formatContext d) (audioStreamIndex d) (audioDevice d) (isDecoding d)
     (playbackStarted d) (playbackPaused d) (shouldStop d)
     (audioFrameQueue d) (currentTime d) x (bufferPosition d)
     (calls d).

Definition set_bufferPosition (x : Z) (d : t) : t :=
  mk (formatContext d) (audioStreamIndex d) (audioDevice d) (isDecoding d)
     (playbackStarted d) (playbackPaused d) (shouldStop d)
     (audioFrameQueue d) (currentTime d) (audioBuffer d) x
     (calls d).

Definition call (c : LibCall) (d : t) : t :=
  mk (formatContext d) (audioStreamIndex d) (audioDevice d) (isDecoding d)
     (playbackStarted d) (playbackPaused d) (shouldStop d)
     (audioFrameQueue d) (currentTime d) (audioBuffer d) (bufferPosition d)
     (calls d ++ [c]).


(** *** Getters *)

Definition isFileOpen (d : t) : bool :=
  match formatContext d with Some _ => true | None => false end.

Definition getCurrentTime (d : t) : Q := currentTime d.

Definition isPlaying (d : t) : bool :=
  playbackStarted d && negb (playbackPaused d).

(** *** Transport *)

Definition clearQueue (d : t) : t := set_audioFrameQueue [] d.

Definition pausePlayback (d : t) : t :=
  if playbackStarted d && negb (playbackPaused d) then
    call (SDL_PauseAudioDevice (audioDevice d) 1) (set_playbackPaused true d)
  else d.

Definition resumePlayback (d : t) : t :=
  if playbackStarted d && playbackPaused d then
    call (SDL_PauseAudioDevice (audioDevice d) 0) (set_playbackPaused false d)
  else d.

(** [startPlayback]; [dev] is the id [SDL_OpenAudioDevice] answers, 0 when
    it fails.  The decoding thread started here is the worker of the
    interleaving model below. *)
Definition startPlayback (dev : Z) (d : t) : bool * t :=
  if playbackStarted d then (true, d)
  else
    let d := set_audioDevice dev (call SDL_OpenAudioDevice d) in
    if audioDevice d =? 0 then (false, d)
    else
      let d := clearQueue d in
      let d := set_audioBuffer [] d in
      let d := set_bufferPosition 0 d in
      let d := set_isDecoding true d in
      let d := set_shouldStop false d in
      let d := set_playbackPaused false d in
      let d := call thread_start d in
      let d := call (SDL_PauseAudioDevice (audioDevice d) 0) d in
      (true, set_playbackStarted true d).

(** [stopPlayback].  The join waits for the worker, whose last steps are
    steps of the interleaving model; whatever it queued is cleared here. *)
Definition stopPlayback (d : t) : t :=
  if negb (playbackStarted d) then d
  else
    let d := set_shouldStop true d in
    let d := set_isDecoding false d in
    let d := call thread_join d in
    let d :=
      if negb (audioDevice d =? 0) then
        set_audioDevice 0 (call (SDL_CloseAudioDevice (audioDevice d)) d)
      else d in
    let d := clearQueue d in
    let d := set_audioBuffer [] d in
    let d := set_bufferPosition 0 d in
    let d := set_playbackStarted false d in
    let d := set_playbackPaused false d in
    set_currentTime 0%Q d.

(** [seekToTime(seconds)]. *)
Definition seekToTime (seconds : Q) (d : t) : bool * t :=
  match formatContext d with
  | None => (false, d)
  | Some ctx =>
      let timestamp :=
        to_int64 (binary64_mul (to_double seconds)
                               (int_to_double AV_TIME_BASE)) in
      let wasPlaying := isPlaying d in
      let d := if wasPlaying then pausePlayback d else d in
      let (ret, ctx') := av_seek_frame ctx timestamp in
      let d := call (av_seek_frame_call (-1) timestamp) d in
      if ret <? 0 then (false, d)
      else
        let d := set_formatContext (Some ctx') d in
        let d := call avcodec_flush_buffers d in
        let d := clearQueue d in
        let d := set_audioBuffer [] d in
        let d := set_bufferPosition 0 d in
        let d := set_currentTime seconds d in
        let d := if wasPlaying then resumePlayback d else d in
        (true, d)
  end.

(** *** Sample-format conversion and the decode worker

    [av_samples_get_buffer_size n] stands for FFmpeg's
    [av_samples_get_buffer_size(nullptr, 2, n, AV_SAMPLE_FMT_S16, 0)] and
    [time_base] for [av_q2d(audioStream->time_base)]. *)

Section DecodeWorker.

Variable av_samples_get_buffer_size : Z -> Z.
Variable time_base : Q.

(** The [AudioFrame audioFrame;] that [decodeNextFrame] declares. *)
Definition fresh_frame : AudioFrame := mkAudioFrame [] 0 0%Q.

(** What [swr_convert] leaves in an output buffer [buf]. *)
Definition swr_write (frame : AVFrame) (buf : list byte) : list byte :=
  firstn (length buf) (swr_output frame)
  ++ skipn (length (swr_output frame)) buf.

(** [convertAudioFrame(frame, audioFrame)]. *)
Definition convertAudioFrame (frame : AVFrame) (audioFrame : AudioFrame)
  : Outcome (bool * AudioFrame) :=
  let outputSamples := swr_out_samples frame in
  if outputSamples <=? 0 then Returned (false, audioFrame)
  else
    let outputBufferSize := av_samples_get_buffer_size outputSamples in
    buf <- vector_resize outputBufferSize (data audioFrame) ;;
    let buf := swr_write frame buf in
    let convertedSamples := swr_converted frame in
    if convertedSamples <? 0 then
      Returned (false, mkAudioFrame buf (pts audioFrame) (timestamp audioFrame))
    else
      let actualSize := av_samples_get_buffer_size convertedSamples in
      buf <- vector_resize actualSize buf ;;
      Returned (true,
                mkAudioFrame buf (frame_pts frame)
                             (inject_Z (frame_pts frame) * time_base)%Q).

(** One turn of the receive loop of [decodeNextFrame] (lines 300-310). *)
Definition receive_one (frame : AVFrame) (d : t) : Outcome t :=
  r <- convertAudioFrame frame fresh_frame ;;
  if fst r then
    Returned (set_audioFrameQueue (audioFrameQueue d ++ [snd r]) d)
  else Returned d.

Fixpoint receive_loop (frames : list AVFrame) (d : t) : Outcome t :=
  match frames with
  | [] => Returned d
  | frame :: rest => d' <- receive_one frame d ;; receive_loop rest d'
  end.

(** How [decodeNextFrame] leaves its first part (lines 278-296). *)
Inductive SendResult : Type :=
| SendFalse (d : t)
| SendSkip (d : t)
| SendOk (frames : list AVFrame) (d : t).

Definition read_and_send (d : t) : Outcome SendResult :=
  match formatContext d with
  | None => Aborted
  | Some ctx =>
      let (r, ctx') := av_read_frame ctx in
      let d := set_formatContext (Some ctx') d in
      match r with
      | None => Returned (SendFalse d)
      | Some packet =>
          if negb (stream_index packet =? audioStreamIndex d) then
            Returned (SendSkip d)
          else if send_packet_ret packet <? 0 then Returned (SendFalse d)
          else Returned (SendOk (receive_frames packet) d)
      end
  end.

(** [decodeNextFrame()]. *)
Definition decodeNextFrame (d : t) : Outcome (bool * t) :=
  s <- read_and_send d ;;
  match s with
  | SendFalse d => Returned (false, d)
  | SendSkip d => Returned (true, d)
  | SendOk frames d => d' <- receive_loop frames d ;; Returned (true, d')
  end.

(** Where the decoding thread stands in [decodingLoop]. *)
Inductive WorkerPC : Type :=
| LoopTest
| QueueCheck
| Waiting
| StopCheck
| Decode
| Receiving (frames : list AVFrame)
| Exited
| Crashed.

Definition HIGH_WATERMARK : Z := 10.
Definition LOW_WATERMARK : Z := 5.

Definition queue_size (d : t) : Z := Z.of_nat (length (audioFrameQueue d)).

(** The predicate of [queueCondition.wait] (line 260). *)
Definition wait_predicate (d : t) : bool :=
  (queue_size d <=? LOW_WATERMARK) || shouldStop d.

(** One atomic step of the decoding thread; [None] when it cannot move
    (blocked in the wait, or gone). *)
Definition worker_step (pc : WorkerPC) (d : t) : option (WorkerPC * t) :=
  match pc with
  | LoopTest =>
      if isDecoding d && negb (shouldStop d) then Some (QueueCheck, d)
      else Some (Exited, d)
  | QueueCheck =>
      if queue_size d >? HIGH_WATERMARK then Some (Waiting, d)
      else Some (StopCheck, d)
  | Waiting =>
      if wait_predicate d then Some (StopCheck, d) else None
  | StopCheck =>
      if shouldStop d then Some (Exited, d) else Some (Decode, d)
  | Decode =>
      match read_and_send d with
      | Aborted => Some (Crashed, d)
      | Returned (SendFalse d') => Some (Exited, d')
      | Returned (SendSkip d') => Some (LoopTest, d')
      | Returned (SendOk frames d') => Some (Receiving frames, d')
      end
  | Receiving [] => Some (LoopTest, d)
  | Receiving (frame :: rest) =>
      match receive_one frame d with
      | Aborted => Some (Crashed, d)
      | Returned d' => Some (Receiving rest, d')
      end
  | Exited => None
  | Crashed => None
  end.

(** [n] steps of the decoding thread running alone. *)
Fixpoint worker_run (n : nat) (pc : WorkerPC) (d : t) : WorkerPC * t :=
  match n with
  | O => (pc, d)
  | S k =>
      match worker_step pc d with
      | Some (pc', d') => worker_run k pc' d'
      | None => (pc, d)
      end
  end.

End DecodeWorker.

(** *** The output callback *)

(** The locals of [fillAudioBuffer] together with the decoder. *)
Record FillState : Type := mkFill {
  fs_dec : t;
  fs_stream : list byte;
  bytesNeeded : Z;
  streamPos : Z
}.

Definition buffer_size (d : t) : Z := Z.of_nat (length (audioBuffer d)).

(** Lines 374-389: take the next block when the current one is used up;
    [None] is the [break] of line 377. *)
Definition refill (d : t) : option t :=
  if bufferPosition d >=? buffer_size d then
    match audioFrameQueue d with
    | [] => None
    | frame :: rest =>
        let d := set_audioFrameQueue rest d in
        let d := set_audioBuffer (data frame) d in
        let d := set_bufferPosition 0 d in
        Some (set_currentTime (timestamp frame) d)
    end
  else Some d.

(** One turn of the [while (bytesNeeded > 0)] loop, lines 373-399. *)
Definition fill_body (s : FillState) : option FillState :=
  match refill (fs_dec s) with
  | None => None
  | Some d =>
      let availableBytes := to_int (buffer_size d - bufferPosition d) in
      let bytesToCopy := Z.min (bytesNeeded s) availableBytes in
      Some (mkFill
              (set_bufferPosition (bufferPosition d + bytesToCopy) d)
              (memcpy (fs_stream s) (streamPos s)
                      (audioBuffer d) (bufferPosition d) bytesToCopy)
              (bytesNeeded s - bytesToCopy)
              (streamPos s + bytesToCopy))
  end.

(** The loop; [None] only when [fuel] runs out. *)
Fixpoint fill_loop (fuel : nat) (s : FillState) : option FillState :=
  if bytesNeeded s >? 0 then
    match fuel with
    | O => None
    | S k =>
        match fill_body s with
        | None => Some s
        | Some s' => fill_loop k s'
        end
    end
  else Some s.

(** Every turn copies a byte or takes a block off the queue. *)
Definition fill_fuel (len : Z) (d : t) : nat :=
  (Z.to_nat len + length (audioFrameQueue d))%nat.

(** [fillAudioBuffer(stream, len)]: the device buffer afterwards and the
    decoder afterwards. *)
Definition fillAudioBuffer (stream : list byte) (len : Z) (d : t)
  : option (list byte * t) :=
  let stream := memset0 stream len in
  if playbackPaused d then Some (stream, d)
  else
    match fill_loop (fill_fuel len d) (mkFill d stream len 0) with
    | Some s => Some (fs_stream s, fs_dec s)
    | None => None
    end.

(** The bytes still to be played, in playing order. *)
Definition remaining (d : t) : list byte :=
  skipn (Z.to_nat (bufferPosition d)) (audioBuffer d)
  ++ concat (map data (audioFrameQueue d)).

(** Block sizes come from [int] values and positions are [size_t]. *)
Definition sizes_fit (d : t) : Prop :=
  0 <= bufferPosition d
  /\ buffer_size d <= INT_MAX
  /\ Forall (fun f => Z.of_nat (length (data f)) <= INT_MAX)
            (audioFrameQueue d).

(** *** Playing: what moves the clock between two seeks *)

Definition push (f : AudioFrame) (d : t) : t :=
  set_audioFrameQueue (audioFrameQueue d ++ [f]) d.

Inductive PlayEvent : Type :=
| Callback (stream : list byte) (len : Z)
| Push (f : AudioFrame)
| Pause
| Resume.

Definition play_step (e : PlayEvent) (d : t) : t :=
  match e with
  | Callback stream len =>
      match fillAudioBuffer stream len d with
      | Some (_, d') => d'
      | None => d
      end
  | Push f => push f d
  | Pause => pausePlayback d
  | Resume => resumePlayback d
  end.


(** The queue holds blocks in non-decreasing time order, none before [t0]. *)
Fixpoint ordered_from (t0 : Q) (q : list AudioFrame) : Prop :=
  match q with
  | [] => True
  | f :: rest => (t0 <= timestamp f)%Q /\ ordered_from (timestamp f) rest
  end.

Definition clock_ordered (d : t) : Prop :=
  ordered_from (currentTime d) (audioFrameQueue d).

Fixpoint nondecreasing_from (t0 : Q) (l : list Q) : Prop :=
  match l with
  | [] => True
  | x :: rest => (t0 <= x)%Q /\ nondecreasing_from x rest
  end.

(** The time of the newest block queued, or the clock when none is. *)
Definition last_time (d : t) : Q :=
  last (map timestamp (audioFrameQueue d)) (currentTime d).


(** *** The decoding thread among the other threads

    The decoding thread moves by [worker_step]; between any two of its
    steps the device callback may run a turn of its loop and the control
    thread may clear the queue, pause, resume, seek or raise the stop
    signal.  ([startPlayback] is no step: it returns at once while
    playback is started, and a restart follows a join.) *)

Record Sys : Type := mkSys {
  worker : WorkerPC;
  dec : t
}.

Definition signal_stop (d : t) : t :=
  set_isDecoding false (set_shouldStop true d).

Inductive sys_step (bufsize : Z -> Z) (time_base : Q) : Sys -> Sys -> Prop :=
| step_worker pc d pc' d' :
    worker_step bufsize time_base pc d = Some (pc', d') ->
    sys_step bufsize time_base (mkSys pc d) (mkSys pc' d')
| step_callback_turn pc d stream needed pos s' :
    fill_body (mkFill d stream needed pos) = Some s' ->
    sys_step bufsize time_base (mkSys pc d) (mkSys pc (fs_dec s'))
| step_clear pc d :
    sys_step bufsize time_base (mkSys pc d) (mkSys pc (clearQueue d))
| step_pause pc d :
    sys_step bufsize time_base (mkSys pc d) (mkSys pc (pausePlayback d))
| step_resume pc d :
    sys_step bufsize time_base (mkSys pc d) (mkSys pc (resumePlayback d))
| step_seek pc d seconds :
    sys_step bufsize time_base (mkSys pc d)
             (mkSys pc (snd (seekToTime seconds d)))
| step_stop_signal pc d :
    sys_step bufsize time_base (mkSys pc d) (mkSys pc (signal_stop d)).

Inductive reachable (bufsize : Z -> Z) (time_base : Q) (s0 : Sys)
  : Sys -> Prop :=
| reach_init : reachable bufsize time_base s0 s0
| reach_step s s' :
    reachable bufsize time_base s0 s ->
    sys_step bufsize time_base s s' ->
    reachable bufsize time_base s0 s'.

(** No packet of the source yields more than [K] frames. *)
Definition frames_le (K : nat) (r : ReadResult) : Prop :=
  match r with
  | ReadPacket p => (length (receive_frames p) <= K)%nat
  | ReadError => True
  end.

Definition source_bounded (K : nat) (d : t) : Prop :=
  match formatContext d with
  | None => True
  | Some ctx =>
      Forall (frames_le K) (pending ctx)
      /\ forall ts l, seek_table ctx ts = Some l -> Forall (frames_le K) l
  end.

(** What holds of the queue length at each point of [decodingLoop]. *)
Definition bound_inv (K : nat) (s : Sys) : Prop :=
  source_bounded K (dec s)
  /\ queue_size (dec s) <= HIGH_WATERMARK + Z.of_nat K
  /\ match worker s with
     | StopCheck =>
         queue_size (dec s) <= HIGH_WATERMARK \/ shouldStop (dec s) = true
     | Decode => queue_size (dec s) <= HIGH_WATERMARK
     | Receiving frames =>
         queue_size (dec s) + Z.of_nat (length frames)
         <= HIGH_WATERMARK + Z.of_nat K
     | _ => True
     end.

(** What every step of the callback and of the control thread respects. *)
Definition harmless (K : nat) (d d' : t) : Prop :=
  queue_size d' <= queue_size d
  /\ (source_bounded K d -> source_bounded K d')
  /\ (shouldStop d = true -> shouldStop d' = true).

(** *** Opening and closing *)

Definition set_audioStreamIndex (x : Z) (d : t) : t :=
  mk (formatContext d) x (audioDevice d) (isDecoding d)
     (playbackStarted d) (playbackPaused d) (shouldStop d)
     (audioFrameQueue d) (currentTime d) (audioBuffer d) (bufferPosition d)
     (calls d).

(** [close()]; of the fields it resets, [sampleRate], [channels],
    [duration] and the codec and resampler handles lie outside the
    record. *)
Definition close (d : t) : t :=
  let d := stopPlayback d in
  let d := set_formatContext None d in
  let d := set_audioStreamIndex (-1) d in
  set_currentTime 0%Q d.

(** What FFmpeg answers while a file is opened: the demuxer that
    [avformat_open_input] yields ([None] when it fails), the values of
    [avformat_find_stream_info] and [av_find_best_stream], and, for
    [initializeDecoder] and [setupResampler], whether each allocation
    succeeds and what each initialisation returns. *)
Record OpenScript : Type := mkOpenScript {
  open_input : option AVFormatContext;
  find_stream_info_ret : Z;
  best_stream : Z;
  find_decoder_ok : bool;
  alloc_context_ok : bool;
  parameters_to_context_ret : Z;
  open2_ret : Z;
  swr_alloc_ok : bool;
  swr_init_ret : Z
}.

(** [initializeDecoder()], as far as its result goes. *)
Definition initializeDecoder (sc : OpenScript) : bool :=
  if negb (find_decoder_ok sc) then false
  else if negb (alloc_context_ok sc) then false
  else if parameters_to_context_ret sc <? 0 then false
  else if open2_ret sc <? 0 then false
  else true.

(** [setupResampler()], as far as its result goes. *)
Definition setupResampler (sc : OpenScript) : bool :=
  if negb (swr_alloc_ok sc) then false
  else if swr_init_ret sc <? 0 then false
  else true.

(** [openFile(filename)]; [avformat_open_input] and [avformat_close_input]
    leave the pointer null when they fail or close. *)
Definition openFile (sc : OpenScript) (d : t) : bool * t :=
  let d := close d in
  match open_input sc with
  | None => (false, d)
  | Some ctx =>
      let d := set_formatContext (Some ctx) d in
      if find_stream_info_ret sc <? 0 then (false, set_formatContext None d)
      else
        let d := set_audioStreamIndex (best_stream sc) d in
        if audioStreamIndex d <? 0 then (false, set_formatContext None d)
        else if negb (initializeDecoder sc) then (false, close d)
        else if negb (setupResampler sc) then (false, close d)
        else (true, d)
  end.

(** *** What a packet adds to the queue, and sessions of calls *)

Section Sessions.

Variable av_samples_get_buffer_size : Z -> Z.
Variable time_base : Q.

(** The blocks that the frames of a packet convert to, in order. *)
Fixpoint blocks_of (frames : list AVFrame) : list AudioFrame :=
  match frames with
  | [] => []
  | frame :: rest =>
      match convertAudioFrame av_samples_get_buffer_size time_base
                              frame fresh_frame with
      | Returned (true, block) => block :: blocks_of rest
      | _ => blocks_of rest
      end
  end.

(** The blocks that one answer of the demuxer leads to. *)
Definition produced (audioIndex : Z) (r : ReadResult) : list AudioFrame :=
  match r with
  | ReadPacket p =>
      if (stream_index p =? audioIndex) && negb (send_packet_ret p <? 0)
      then blocks_of (receive_frames p)
      else []
  | ReadError => []
  end.

(** A call on the decoder: by the control thread, by the device
    ([DoCallback]) or by the decoding thread ([DoDecode]). *)
Inductive Command : Type :=
| DoOpen (sc : OpenScript)
| DoClose
| DoStart (dev : Z)
| DoStop
| DoPause
| DoResume
| DoSeek (seconds : Q)
| DoCallback (stream : list byte) (len : Z)
| DoDecode.

(** The decoder after a call; a call that aborts is the last one. *)
Definition session_step (c : Command) (d : t) : t :=
  match c with
  | DoOpen sc => snd (openFile sc d)
  | DoClose => close d
  | DoStart dev => snd (startPlayback dev d)
  | DoStop => stopPlayback d
  | DoPause => pausePlayback d
  | DoResume => resumePlayback d
  | DoSeek seconds => snd (seekToTime seconds d)
  | DoCallback stream len =>
      match fillAudioBuffer stream len d with
      | Some (_, d') => d'
      | None => d
      end
  | DoDecode =>
      match decodeNextFrame av_samples_get_buffer_size time_base d with
      | Returned (_, d') => d'
      | Aborted => d
      end
  end.

Definition session (cs : list Command) (d : t) : t :=
  fold_left (fun d c => session_step c d) cs d.

End Sessions.

(** What the calls keep: the position lies within the current block,
    block sizes fit an [int], a paused decoder is a started one, and the
    device is open exactly while playback is started. *)
Definition coherent (d : t) : Prop :=
  sizes_fit d
  /\ bufferPosition d <= buffer_size d
  /\ (playbackPaused d = true -> playbackStarted d = true)
  /\ (playbackStarted d = true <-> audioDevice d <> 0).

(** The frames carry non-decreasing [pts], none below [p0]. *)
Fixpoint pts_from (p0 : Z) (frames : list AVFrame) : Prop :=
  match frames with
  | [] => True
  | frame :: rest => p0 <= frame_pts frame /\ pts_from (frame_pts frame) rest
  end.

(** The clock as read after each call of a session. *)
Fixpoint session_trace (bufsize : Z -> Z) (time_base : Q)
         (cs : list Command) (d : t) : list Q :=
  match cs with
  | [] => []
  | c :: rest =>
      let d' := session_step bufsize time_base c d in
      currentTime d' :: session_trace bufsize time_base rest d'
  end.

(** The calls made while playback runs on: decoding, the callback, pause
    and resume, but no seek, stop, start, open or close. *)
Definition plays_on (c : Command) : Prop :=
  match c with
  | DoDecode | DoCallback _ _ | DoPause | DoResume => True
  | _ => False
  end.

(** The frames that the packets of the audio stream still to be read
    yield, in reading order. *)
Fixpoint audio_frames (audioIndex : Z) (l : list ReadResult)
  : list AVFrame :=
  match l with
  | [] => []
  | ReadPacket p :: rest =>
      (if stream_index p =? audioIndex then receive_frames p else [])
      ++ audio_frames audioIndex rest
  | ReadError :: rest => audio_frames audioIndex rest
  end.

(** The demuxer will deliver audio frames in non-decreasing [pts] order,
    none below [p0]. *)
Definition source_sorted (p0 : Z) (d : t) : Prop :=
  match formatContext d with
  | None => True
  | Some ctx => pts_from p0 (audio_frames (audioStreamIndex d) (pending ctx))
  end.

(** [d'] differs from [d] at most in the queue, the current block, its
    position and the clock. *)
Definition same_control (d d' : t) : Prop :=
  formatContext d' = formatContext d
  /\ audioStreamIndex d' = audioStreamIndex d
  /\ audioDevice d' = audioDevice d
  /\ isDecoding d' = isDecoding d
  /\ playbackStarted d' = playbackStarted d
  /\ playbackPaused d' = playbackPaused d
  /\ shouldStop d' = shouldStop d
  /\ calls d' = calls d.

(** [blocks] pushed one after the other. *)
Definition push_all (blocks : list AudioFrame) (d : t) : t :=
  fold_left (fun d f => push f d) blocks d.

(** *** The wait and [stopPlayback] in detail

    [queueCondition.wait(lock, pred)] (line 259) is
    [while (!pred()) wait(lock);].  Holding [queueMutex] the thread
    evaluates the predicate; where it fails the thread calls [wait(lock)],
    which releases the mutex and puts the thread to sleep until it is
    notified, after which it evaluates the predicate again.
    [stopPlayback] (lines 208-214) stores [shouldStop] and [isDecoding] and
    calls [notify_all] without taking [queueMutex], so each of its steps
    can fall between any two steps of the waiting thread; then it joins.
    The callback notifies after each block it takes (line 388), which it
    does only while playback is not paused and the mutex is free; the
    notify of line 306 is the decoding thread's own.  Wake-ups without a
    notify, which the library may but need not produce, are left out. *)

Inductive Waiter : Type :=
| Evaluating
| GoingToSleep
| Asleep
| Through
| Ended.

Inductive Stopper : Type :=
| StoreShouldStop
| StoreIsDecoding
| NotifyAll
| Join
| Joined.

Record Handshake : Type := mkHandshake {
  waiter : Waiter;
  stopper : Stopper;
  hs_dec : t
}.

(** What a notify does to the waiting thread. *)
Definition notified (w : Waiter) : Waiter :=
  match w with
  | Asleep => Evaluating
  | _ => w
  end.

Inductive handshake_step : Handshake -> Handshake -> Prop :=
| hs_evaluate st d :
    handshake_step
      (mkHandshake Evaluating st d)
      (mkHandshake (if wait_predicate d then Through else GoingToSleep) st d)
| hs_sleep st d :
    handshake_step (mkHandshake GoingToSleep st d) (mkHandshake Asleep st d)
| hs_leave st d :
    shouldStop d = true ->
    handshake_step (mkHandshake Through st d) (mkHandshake Ended st d)
| hs_store_stop w d :
    handshake_step (mkHandshake w StoreShouldStop d)
                   (mkHandshake w StoreIsDecoding (set_shouldStop true d))
| hs_store_decoding w d :
    handshake_step (mkHandshake w StoreIsDecoding d)
                   (mkHandshake w NotifyAll (set_isDecoding false d))
| hs_notify_all w d :
    handshake_step (mkHandshake w NotifyAll d)
                   (mkHandshake (notified w) Join d)
| hs_join d :
    handshake_step (mkHandshake Ended Join d) (mkHandshake Ended Joined d)
| hs_callback w st d d' :
    playbackPaused d = false ->
    (bufferPosition d >=? buffer_size d) = true ->
    refill d = Some d' ->
    w = Asleep \/ w = Through \/ w = Ended ->
    handshake_step (mkHandshake w st d) (mkHandshake (notified w) st d').

Inductive handshake_run : Handshake -> Handshake -> Prop :=
| hs_done s : handshake_run s s
| hs_more s s' s'' :
    handshake_step s s' -> handshake_run s' s'' -> handshake_run s s''.

End AudioDecoder.

(** ** VideoDecoder *)

Module VideoDecoder.

Definition AVERROR_EAGAIN : Z := -11.
Definition AVERROR_EOF : Z := -541478725.

(** A demuxed packet with what the video codec reports for it:
    [v_receive_ret] is the value of [avcodec_receive_frame] and
    [v_frame_pts] the [pts] the frame holds after that call. *)
Record VideoPacket : Type := mkVideoPacket {
  v_stream_index : Z;
  v_send_ret : Z;
  v_receive_ret : Z;
  v_frame_pts : Z
}.

Inductive VideoRead : Type :=
| VRead (p : VideoPacket)
| VReadError.

(** [frame = None] is the null pointer, [Some pts] a frame holding [pts]. *)
Record t : Type := mk {
  isOpen : bool;
  endOfStream : bool;
  videoStreamIndex : Z;
  frame : option Z;
  timeBase : Q;
  v_pending : list VideoRead;
  v_seek_table : Z -> option (list VideoRead);
  v_calls : list LibCall
}.

Definition isFileOpen (d : t) : bool := isOpen d.

(** The [while (true)] of [getNextFrame], one packet a turn. *)
Fixpoint read_loop (l : list VideoRead) (d : t) : bool * t :=
  match l with
  | [] =>
      (false, mk (isOpen d) true (videoStreamIndex d) (frame d) (timeBase d)
                 [] (v_seek_table d) (v_calls d))
  | VReadError :: rest =>
      (false, mk (isOpen d) (endOfStream d) (videoStreamIndex d) (frame d)
                 (timeBase d) rest (v_seek_table d) (v_calls d))
  | VRead p :: rest =>
      if negb (v_stream_index p =? videoStreamIndex d) then read_loop rest d
      else if v_send_ret p <? 0 then read_loop rest d
      else
        let d := mk (isOpen d) (endOfStream d) (videoStreamIndex d)
                    (Some (v_frame_pts p)) (timeBase d)
                    (v_pending d) (v_seek_table d) (v_calls d) in
        if (v_receive_ret p =? AVERROR_EAGAIN)
           || (v_receive_ret p =? AVERROR_EOF)
        then read_loop rest d
        else
          (true, mk (isOpen d) (endOfStream d) (videoStreamIndex d) (frame d)
                    (timeBase d) rest (v_seek_table d) (v_calls d))
  end.

(** [getNextFrame]; the picture handed out is left aside. *)
Definition getNextFrame (d : t) : bool * t :=
  if negb (isOpen d) || endOfStream d then (false, d)
  else read_loop (v_pending d) d.

(** [seekToTime(seconds)]. *)
Definition seekToTime (seconds : Q) (d : t) : bool * t :=
  if negb (isOpen d) then (false, d)
  else
    let timestamp :=
      to_int64 (binary64_div (to_double seconds) (to_double (timeBase d))) in
    let log := v_calls d ++ [av_seek_frame_call (videoStreamIndex d) timestamp] in
    match v_seek_table d timestamp with
    | None =>
        (false, mk (isOpen d) (endOfStream d) (videoStreamIndex d) (frame d)
                   (timeBase d) (v_pending d) (v_seek_table d) log)
    | Some l =>
        (true, mk (isOpen d) false (videoStreamIndex d) (frame d)
                  (timeBase d) l (v_seek_table d)
                  (log ++ [avcodec_flush_buffers]))
    end.

(** [getCurrentTime()]. *)
Definition getCurrentTime (d : t) : Q :=
  match frame d with
  | Some frame_pts =>
      if negb (isOpen d) then 0%Q
      else (inject_Z frame_pts * timeBase d)%Q
  | None => 0%Q
  end.

(** A packet that [getNextFrame] reads and passes over: one of another
    stream, one the codec refuses, or one for which the codec has no
    picture yet. *)
Definition passed_over (videoIndex : Z) (r : VideoRead) : Prop :=
  match r with
  | VRead p =>
      v_stream_index p <> videoIndex
      \/ v_send_ret p < 0
      \/ v_receive_ret p = AVERROR_EAGAIN
      \/ v_receive_ret p = AVERROR_EOF
  | VReadError => False
  end.

End VideoDecoder.

(** ** MediaPlayer *)

Module MediaPlayer.

(** binary32 constants. *)
Definition float_zero : spec_float := S754_zero false.
Definition float_one : spec_float := S754_finite false 8388608 (-23).

(** [std::clamp(v, lo, hi)]: [lo] if [v < lo], [hi] if [hi < v], else [v];
    the comparisons are those of [operator<], false whenever an operand is
    a NaN. *)
Definition clamp (v lo hi : spec_float) : spec_float :=
  if SFltb v lo then lo else if SFltb hi v then hi else v.

Record t : Type := mk {
  playing : bool;
  muted : bool;
  volume : spec_float;
  hasVideo : bool;
  hasAudio : bool;
  videoDecoder : VideoDecoder.t;
  audioDecoder : AudioDecoder.t
}.

Definition set_playing (x : bool) (m : t) : t :=
  mk x (muted m) (volume m) (hasVideo m) (hasAudio m)
     (videoDecoder m) (audioDecoder m).

Definition set_videoDecoder (x : VideoDecoder.t) (m : t) : t :=
  mk (playing m) (muted m) (volume m) (hasVideo m) (hasAudio m)
     x (audioDecoder m).

Definition set_audioDecoder (x : AudioDecoder.t) (m : t) : t :=
  mk (playing m) (muted m) (volume m) (hasVideo m) (hasAudio m)
     (videoDecoder m) x.

(** [play()]; [dev] is what [SDL_OpenAudioDevice] answers. *)
Definition play (dev : Z) (m : t) : t :=
  if (hasVideo m || hasAudio m) && negb (playing m) then
    let m :=
      if hasAudio m then
        set_audioDecoder (snd (AudioDecoder.startPlayback dev (audioDecoder m))) m
      else m in
    set_playing true m
  else m.

Definition pause (m : t) : t :=
  if (hasVideo m || hasAudio m) && playing m then
    let m :=
      if hasAudio m then
        set_audioDecoder (AudioDecoder.pausePlayback (audioDecoder m)) m
      else m in
    set_playing false m
  else m.

Definition stop (m : t) : t :=
  if hasVideo m || hasAudio m then
    let m :=
      if hasAudio m then
        set_audioDecoder (AudioDecoder.stopPlayback (audioDecoder m)) m
      else m in
    let m := set_playing false m in
    let m :=
      if hasVideo m && VideoDecoder.isFileOpen (videoDecoder m) then
        set_videoDecoder (snd (VideoDecoder.seekToTime 0 (videoDecoder m))) m
      else m in
    if hasAudio m && AudioDecoder.isFileOpen (audioDecoder m) then
      set_audioDecoder (snd (AudioDecoder.seekToTime 0 (audioDecoder m))) m
    else m
  else m.

Definition isPlaying (m : t) : bool := playing m.

Definition seekToTime (seconds : Q) (m : t) : bool * t :=
  if negb (hasVideo m) && negb (hasAudio m) then (false, m)
  else
    let success := true in
    let (success, m) :=
      if hasVideo m then
        let (r, v) := VideoDecoder.seekToTime seconds (videoDecoder m) in
        (success && r, set_videoDecoder v m)
      else (success, m) in
    if hasAudio m then
      let (r, a) := AudioDecoder.seekToTime seconds (audioDecoder m) in
      (success && r, set_audioDecoder a m)
    else (success, m).

Definition getCurrentTime (m : t) : Q :=
  if hasVideo m then VideoDecoder.getCurrentTime (videoDecoder m)
  else if hasAudio m then AudioDecoder.getCurrentTime (audioDecoder m)
  else 0%Q.

Definition setVolume (newVolume : spec_float) (m : t) : t :=
  mk (playing m) (muted m) (clamp newVolume float_zero float_one)
     (hasVideo m) (hasAudio m) (videoDecoder m) (audioDecoder m).

Definition getVolume (m : t) : spec_float := volume m.

(** [lo <= x <= hi] as the comparisons of C++ decide it. *)
Definition in_range (lo hi x : spec_float) : bool :=
  SFleb lo x && SFleb x hi.

(** *** Mute *)

Definition set_muted (x : bool) (m : t) : t :=
  mk (playing m) x (volume m) (hasVideo m) (hasAudio m)
     (videoDecoder m) (audioDecoder m).

Definition mute (m : t) : t := if negb (muted m) then set_muted true m else m.

Definition unmute (m : t) : t := if muted m then set_muted false m else m.

Definition isMuted (m : t) : bool := muted m.

(** *** Runs of transport calls *)

Inductive Call : Type :=
| CallPlay (dev : Z)
| CallPause
| CallSeek (seconds : Q).

Definition call_step (c : Call) (m : t) : t :=
  match c with
  | CallPlay dev => play dev m
  | CallPause => pause m
  | CallSeek seconds => snd (seekToTime seconds m)
  end.

Definition run (cs : list Call) (m : t) : t :=
  fold_left (fun m c => call_step c m) cs m.

End MediaPlayer.

(** ** File names

    [MediaPlayer::isVideoFile] and [MediaPlayer::isAudioFile], on
    [std::string] as strings of 8-bit characters. *)

Module FileNames.

Import Stdlib.Strings.Ascii Stdlib.Strings.String.

(** [std::string::npos]. *)
Definition npos : Z := 2^64 - 1.

(** [s.find_last_of(c)], scanning from index [i] with the last index found
    so far. *)
Fixpoint find_last_from (c : ascii) (s : string) (i found : Z) : Z :=
  match s with
  | EmptyString => found
  | String a rest =>
      find_last_from c rest (i + 1) (if Ascii.eqb a c then i else found)
  end.

Definition find_last_of (s : string) (c : ascii) : Z :=
  find_last_from c s 0 npos.

(** [s.substr(pos)] for [pos <= s.size()]. *)
Definition substr (s : string) (pos : Z) : string :=
  substring (Z.to_nat pos) (String.length s - Z.to_nat pos) s.

(** [::tolower] in the "C" locale. *)
Definition tolower (c : ascii) : ascii :=
  let n := N_of_ascii c in
  if (65 <=? n)%N && (n <=? 90)%N then ascii_of_N (n + 32) else c.

(** [std::transform(ext.begin(), ext.end(), ext.begin(), ::tolower)]. *)
Fixpoint transform_tolower (s : string) : string :=
  match s with
  | EmptyString => EmptyString
  | String a rest => String (tolower a) (transform_tolower rest)
  end.

(** The [ext] of both functions; [npos + 1] wraps to 0. *)
Definition extension (filename : string) : string :=
  transform_tolower
    (substr filename ((find_last_of filename "."%char + 1) mod 2^64)).

Definition isVideoFile (filename : string) : bool :=
  let ext := extension filename in
  (ext =? "mp4")%string || (ext =? "avi")%string || (ext =? "mkv")%string
  || (ext =? "mov")%string || (ext =? "wmv")%string || (ext =? "flv")%string
  || (ext =? "webm")%string || (ext =? "m4v")%string.

Definition isAudioFile (filename : string) : bool :=
  let ext := extension filename in
  (ext =? "mp3")%string || (ext =? "wav")%string || (ext =? "flac")%string
  || (ext =? "ogg")%string || (ext =? "aac")%string || (ext =? "m4a")%string
  || (ext =? "wma")%string || (ext =? "opus")%string.

(** No ['.'] occurs in [s]. *)
Fixpoint dot_free (s : string) : Prop :=
  match s with
  | EmptyString => True
  | String a rest => a <> "."%char /\ dot_free rest
  end.

End FileNames.

(** ** Example inputs *)

Module Examples.

Import AudioDecoder.

(** FFmpeg's size of [n] packed stereo 16-bit samples, an error for
    [n <= 0]. *)
Definition buffer_size_s16 (n : Z) : Z :=
  if n <=? 0 then -22 else 4 * n.

Definition tick : Q := 1 # 10.

(** A frame of two samples that converts. *)
Definition good_frame (p : Z) : AVFrame :=
  mkAVFrame p 2 2 [x01; x02; x03; x04; x05; x06; x07; x08].



Definition audio_packet (frames : list AVFrame) : AVPacket :=
  mkAVPacket 0 0 frames (-11).


Definition no_seek : Z -> option (list ReadResult) := fun _ => None.

(** A seek to any time leads to a key point whose first block is at 6.9s. *)
Definition seek_to_key_point : Z -> option (list ReadResult) :=
  fun _ => Some [ReadPacket (audio_packet [good_frame 69; good_frame 70])].

Definition opened (packets : list ReadResult)
           (seeks : Z -> option (list ReadResult)) : t :=
  mk (Some (mkAVFormatContext packets seeks)) 0 0
     false false false false [] 0%Q [] 0 [].

Definition started (packets : list ReadResult)
           (seeks : Z -> option (list ReadResult)) : t :=
  snd (startPlayback 2 (opened packets seeks)).


(** Ten packets of one frame each, then a packet that yields two. *)
Definition burst_stream : list ReadResult :=
  map (fun p => ReadPacket (audio_packet [good_frame p]))
      [0; 1; 2; 3; 4; 5; 6; 7; 8; 9]
  ++ [ReadPacket (audio_packet [good_frame 10; good_frame 11])].

(** The block that [good_frame 0] converts to. *)
Definition good_block : AudioFrame :=
  mkAudioFrame [x01; x02; x03; x04; x05; x06; x07; x08] 0 (0 # 10).

(** A stream whose one packet yields [n] frames. *)
Definition wide_stream (n : nat) : list ReadResult :=
  [ReadPacket (audio_packet (repeat (good_frame 0) n))].

(** The decoding thread and the decoder after [n] steps of the thread
    running alone on [burst_stream]. *)
Definition burst_start : Sys :=
  mkSys LoopTest (started burst_stream no_seek).

Definition burst_state (n : nat) : Sys :=
  mkSys (fst (worker_run buffer_size_s16 tick n LoopTest
                         (started burst_stream no_seek)))
        (snd (worker_run buffer_size_s16 tick n LoopTest
                         (started burst_stream no_seek))).

(** A video file of which one picture, at [pts = 100] of a 1/25 time base,
    has been shown. *)
Definition video_opened : VideoDecoder.t :=
  VideoDecoder.mk true false 0 (Some (-9223372036854775808)) (1 # 25)
    [VideoDecoder.VRead (VideoDecoder.mkVideoPacket 0 0 0 100)]
    (fun _ => Some [VideoDecoder.VRead (VideoDecoder.mkVideoPacket 0 0 0 100)])
    [].

Definition video_shown : VideoDecoder.t :=
  snd (VideoDecoder.getNextFrame video_opened).

(** A player on a file with a video and an audio stream, playing, the
    audio clock at 5s. *)
Definition av_player : MediaPlayer.t :=
  MediaPlayer.mk true false MediaPlayer.float_one true true video_shown
    (play_step (Callback [x7f; x7f; x7f; x7f] 4)
       (push (mkAudioFrame [x01; x02; x03; x04] 50 5%Q)
             (started [] no_seek))).

(** Playback under way with one block of four bytes queued, and a device
    buffer of eight bytes holding old data. *)
Definition one_block_queued : t :=
  push (mkAudioFrame [x01; x02; x03; x04] 3 (3 # 10)) (started [] no_seek).

Definition stale_stream : list byte :=
  [x7f; x7f; x7f; x7f; x7f; x7f; x7f; x7f].

(** Playback under way, just after a successful [seekToTime(7.0)]; the
    demuxer now stands at the key point before the target. *)
Definition after_seek : t :=
  snd (seekToTime 7 (started [] seek_to_key_point)).


(** A player on an audio-only file, stopped, the audio clock at 5s. *)
Definition audio_player : MediaPlayer.t :=
  MediaPlayer.mk false false MediaPlayer.float_one false true
    (VideoDecoder.mk false false (-1) None 0%Q [] (fun _ => None) [])
    (snd (seekToTime 5 (opened [] seek_to_key_point))).

(** [one_block_queued] after a callback for eight bytes, and what that
    callback puts out. *)
Definition one_block_played : t :=
  play_step (Callback stale_stream 8) one_block_queued.

Definition one_block_out : list byte :=
  [x01; x02; x03; x04; x00; x00; x00; x00].

(** Two blocks of four bytes. *)
Definition two_blocks : list AudioFrame :=
  [mkAudioFrame [x01; x02; x03; x04] 3 (3 # 10);
   mkAudioFrame [x05; x06; x07; x08] 4 (4 # 10)].


(** Playback paused with twelve blocks queued: [burst_stream] decoded
    until the decoding thread waits, then [pausePlayback]. *)
Definition paused_full : t := pausePlayback (dec (burst_state 70)).

(** [after_seek] once the decoding thread has read one more packet. *)
Definition after_seek_decoded : t :=
  session_step buffer_size_s16 tick DoDecode after_seek.

(** [buffer_size_s16] as an [int]: an error as well when the size does
    not fit. *)
Definition buffer_size_checked (n : Z) : Z :=
  if n <=? 0 then -22
  else if 4 * n <=? INT_MAX then 4 * n else -22.

(** Start, decode, play, pause, seek, resume, play, stop and close. *)
Definition busy_session : list Command :=
  [DoStart 2; DoDecode; DoCallback stale_stream 8; DoPause; DoSeek 7;
   DoResume; DoDecode; DoCallback stale_stream 8; DoStop; DoClose].

(** Decoding and playing, around a pause. *)
Definition playing_session : list Command :=
  [DoDecode; DoDecode; DoCallback stale_stream 8; DoPause;
   DoCallback stale_stream 8; DoResume; DoCallback stale_stream 8;
   DoDecode; DoCallback stale_stream 8].

(** A video file whose demuxer reports a read error after a packet of
    another stream. *)
Definition video_read_error : VideoDecoder.t :=
  VideoDecoder.mk true false 0 None (1 # 25)
    [VideoDecoder.VRead (VideoDecoder.mkVideoPacket 1 0 0 7);
     VideoDecoder.VReadError;
     VideoDecoder.VRead (VideoDecoder.mkVideoPacket 0 0 0 100)]
    (fun _ => None) [].

(** A video file read to its end, with a time base of 1/25, that can be
    sought to timestamp 3 and to no other. *)
Definition video_read_out : VideoDecoder.t :=
  VideoDecoder.mk true false 0 (Some 100) (1 # 25) []
    (fun ts =>
       if ts =? 3
       then Some [VideoDecoder.VRead (VideoDecoder.mkVideoPacket 0 0 0 3)]
       else None)
    [].

(** A player on an audio-only file, playing. *)
Definition playing_audio_player : MediaPlayer.t :=
  MediaPlayer.mk true false MediaPlayer.float_one false true
    (VideoDecoder.mk false false (-1) None 0%Q [] (fun _ => None) [])
    (started [] seek_to_key_point).



(** A player on a file with both streams, of which only the audio can be
    sought. *)
Definition half_seekable_player : MediaPlayer.t :=
  MediaPlayer.mk false false MediaPlayer.float_one true true
    (VideoDecoder.mk true false 0 (Some 100) (1 # 25) [] (fun _ => None) [])
    (opened [] seek_to_key_point).

End Examples.

(** ** Seeking *)

Section SeekFacts.

Import AudioDecoder.

(** A failed [seekToTime] leaves the clock, the queue and the block being
    played as they were. *)
Lemma seekToTime_failure_keeps_clock seconds d d' :
  seekToTime seconds d = (false, d') ->
  getCurrentTime d' = getCurrentTime d
  /\ audioFrameQueue d' = audioFrameQueue d
  /\ audioBuffer d' = audioBuffer d
  /\ bufferPosition d' = bufferPosition d
  /\ formatContext d' = formatContext d.
Proof.
  destruct d as [fc asi dev dcd ps pp ss q ct ab bp cl].
  unfold seekToTime, av_seek_frame, isPlaying, pausePlayback, resumePlayback,
    getCurrentTime.
  cbn [formatContext playbackStarted playbackPaused audioDevice].
  generalize (to_int64 (binary64_mul (to_double seconds)
                                     (int_to_double AV_TIME_BASE))).
  intros ts.
  destruct fc as [ctx|].
  - destruct (seek_table ctx ts) as [l|]; destruct ps, pp; cbn;
      intros H; inversion H; subst; cbn; auto.
  - intros H; inversion H; subst; auto.
Qed.

End SeekFacts.

Section SeekSuccess.

Import AudioDecoder.




End SeekSuccess.

Section SeekFailure.

Import AudioDecoder.

(** C6 (where the code departs from it): on a playing decoder whose
    demuxer refuses the seek, [seekToTime] reports the failure and leaves
    the clock alone, but it has paused playback and returns without
    resuming: [isPlaying()] was true before the call and is false after. *)
Theorem seekToTime_failure_leaves_paused :
  let d := Examples.started [] Examples.no_seek in
  let r := seekToTime 7 d in
  fst r = false
  /\ getCurrentTime (snd r) = getCurrentTime d
  /\ isPlaying d = true
  /\ isPlaying (snd r) = false
  /\ playbackPaused (snd r) = true
  /\ calls (snd r)
     = calls d ++ [SDL_PauseAudioDevice 2 1; av_seek_frame_call (-1) 7000000].
Proof.
  vm_compute. repeat split; reflexivity.
Qed.

(** The early return of line 426 is what loses the resume: a failed seek
    on a decoder that is not playing changes nothing but the call log. *)
Lemma seekToTime_failure_not_playing seconds d d' :
  seekToTime seconds d = (false, d') ->
  isPlaying d = false ->
  playbackPaused d' = playbackPaused d
  /\ playbackStarted d' = playbackStarted d.
Proof.
  destruct d as [fc asi dev dcd ps pp ss q ct ab bp cl].
  unfold seekToTime, av_seek_frame, isPlaying, pausePlayback, resumePlayback.
  cbn [formatContext playbackStarted playbackPaused audioDevice calls].
  generalize (to_int64 (binary64_mul (to_double seconds)
                                     (int_to_double AV_TIME_BASE))).
  intros ts.
  destruct fc as [ctx|].
  - destruct (seek_table ctx ts) as [l|]; intros H Hp; rewrite Hp in H;
      cbn in H; inversion H; subst; cbn; auto.
  - intros H _. inversion H; subst. auto.
Qed.

End SeekFailure.

(** ** The player: position, stop and volume *)

Lemma seekToTime_true_clock seconds d d' :
  AudioDecoder.seekToTime seconds d = (true, d') ->
  AudioDecoder.currentTime d' = seconds.
Proof.
  destruct d as [fc asi dev dcd ps pp ss q ct ab bp cl].
  unfold AudioDecoder.seekToTime, av_seek_frame, AudioDecoder.isPlaying,
    AudioDecoder.pausePlayback, AudioDecoder.resumePlayback.
  cbn [AudioDecoder.formatContext AudioDecoder.playbackStarted
       AudioDecoder.playbackPaused AudioDecoder.audioDevice].
  generalize (to_int64 (binary64_mul (to_double seconds)
                                     (int_to_double AV_TIME_BASE))).
  intros ts.
  destruct fc as [ctx|]; [|discriminate].
  destruct (seek_table ctx ts) as [l|];
    destruct ps, pp; cbn; intros H; inversion H; reflexivity.
Qed.

Section PlayerFacts.

Import MediaPlayer.

(** C8 as stated fails: on a file with both streams [getCurrentTime()]
    answers the time of the last video frame (4s here) while the audio
    clock stands at 5s. *)
Lemma getCurrentTime_not_audio_clock :
  hasVideo Examples.av_player = true
  /\ hasAudio Examples.av_player = true
  /\ (getCurrentTime Examples.av_player == 4)%Q
  /\ (AudioDecoder.getCurrentTime (audioDecoder Examples.av_player) == 5)%Q
  /\ ~ (getCurrentTime Examples.av_player
        == AudioDecoder.getCurrentTime (audioDecoder Examples.av_player))%Q.
Proof.
  vm_compute. repeat split; try reflexivity; discriminate.
Qed.

(** C8, amended: [getCurrentTime()] reads, without changing anything, the
    audio clock when the file has audio and no video stream, the video
    decoder's frame time whenever it has a video stream, and 0 otherwise;
    after a successful seek of an audio-only file it answers the target. *)
Theorem getCurrentTime_source (m : t) :
  (hasVideo m = false -> hasAudio m = true ->
   getCurrentTime m = AudioDecoder.currentTime (audioDecoder m))
  /\ (hasVideo m = true ->
      getCurrentTime m = VideoDecoder.getCurrentTime (videoDecoder m))
  /\ (hasVideo m = false -> hasAudio m = false -> getCurrentTime m = 0%Q)
  /\ (forall seconds m',
         hasVideo m = false ->
         seekToTime seconds m = (true, m') ->
         getCurrentTime m' = seconds).
Proof.
  unfold getCurrentTime. repeat split.
  - intros Hv Ha. rewrite Hv, Ha. reflexivity.
  - intros Hv. rewrite Hv. reflexivity.
  - intros Hv Ha. rewrite Hv, Ha. reflexivity.
  - intros seconds m' Hv. unfold seekToTime. rewrite Hv.
    destruct (hasAudio m) eqn:Ha; cbn [negb andb]; [|discriminate].
    destruct (AudioDecoder.seekToTime seconds (audioDecoder m)) as [r a] eqn:Hs.
    cbn [andb]. intros H. inversion H; subst. cbn. rewrite Hv, Ha.
    exact (seekToTime_true_clock _ _ _ Hs).
Qed.

Lemma getCurrentTime_source_witness :
  hasVideo Examples.audio_player = false
  /\ hasAudio Examples.audio_player = true
  /\ getCurrentTime Examples.audio_player
     = AudioDecoder.currentTime (audioDecoder Examples.audio_player).
Proof.
  split; [reflexivity|]. split; [reflexivity|].
  apply (proj1 (getCurrentTime_source Examples.audio_player)); reflexivity.
Defined.

End PlayerFacts.

Section StopFacts.

Import MediaPlayer.

(** C10 (where the code departs from it): [stop()] on a playing file with
    a video stream seeks both decoders to 0, yet [getCurrentTime()] goes on
    answering the time of the last picture shown (4s), because
    [VideoDecoder::seekToTime] leaves [frame->pts] as it was, whereas
    [AudioDecoder::seekToTime] sets its clock. *)
Theorem stop_leaves_video_time :
  let m := stop Examples.av_player in
  (getCurrentTime Examples.av_player == 4)%Q
  /\ playing m = false
  /\ VideoDecoder.v_calls (videoDecoder m)
     = [av_seek_frame_call 0 0; avcodec_flush_buffers]
  /\ (AudioDecoder.getCurrentTime (audioDecoder m) == 0)%Q
  /\ (getCurrentTime m == 4)%Q
  /\ ~ (getCurrentTime m == 0)%Q.
Proof.
  vm_compute. repeat split; try reflexivity; discriminate.
Qed.

(** On a file without a video stream [stop()] does rewind the position
    when playback had been started. *)
Lemma stop_audio_only_rewinds (m : t) :
  hasVideo m = false ->
  hasAudio m = true ->
  AudioDecoder.playbackStarted (audioDecoder m) = true ->
  getCurrentTime (stop m) = 0%Q.
Proof.
  destruct m as [pl mu vol hv ha v a].
  destruct a as [fc asi dev dcd ps pp ss q ct ab bp cl].
  cbn. intros -> -> ->.
  unfold stop, getCurrentTime, AudioDecoder.stopPlayback,
    AudioDecoder.seekToTime, av_seek_frame.
  generalize (to_int64 (binary64_mul (to_double 0)
                                     (int_to_double AV_TIME_BASE))).
  intros ts. cbn.
  destruct (dev =? 0); cbn; (destruct fc as [ctx|]; cbn; [|reflexivity]);
    destruct (seek_table ctx ts); cbn; reflexivity.
Qed.

(** [pause()] keeps the position. *)
Lemma pause_keeps_position (m : t) :
  getCurrentTime (pause m) = getCurrentTime m.
Proof.
  destruct m as [pl mu vol hv ha v a].
  destruct a as [fc asi dev dcd ps pp ss q ct ab bp cl].
  unfold pause, getCurrentTime, AudioDecoder.pausePlayback. cbn.
  destruct hv, ha, pl, ps, pp; reflexivity.
Qed.

End StopFacts.

Section VolumeFacts.

Import MediaPlayer.

Lemma SFleb_zero_one : SFleb float_zero float_one = true.
Proof. reflexivity. Qed.

Lemma SFleb_one_one : SFleb float_one float_one = true.
Proof. reflexivity. Qed.

(** A value that is not a NaN, not below 0 and not above a positive
    finite bound is between them. *)
Lemma not_lt_between (v : spec_float) (mh : positive) (eh : Z) :
  v <> S754_nan ->
  SFltb v (S754_zero false) = false ->
  SFltb (S754_finite false mh eh) v = false ->
  SFleb (S754_zero false) v && SFleb v (S754_finite false mh eh) = true.
Proof.
  unfold SFltb, SFleb.
  destruct v as [s|s| |s m e]; simpl.
  - reflexivity.
  - destruct s; intros; discriminate || reflexivity.
  - intros H; contradiction H; reflexivity.
  - destruct s; intros _; [discriminate|]. intros _.
    rewrite (Z.compare_antisym e eh).
    destruct (e ?= eh) eqn:He; simpl; try reflexivity; try discriminate.
    change (Pos.compare_cont Eq mh m) with (mh ?= m)%positive.
    change (Pos.compare_cont Eq m mh) with (m ?= mh)%positive.
    rewrite (Pos.compare_antisym m mh).
    destruct (m ?= mh)%positive; simpl; try reflexivity; discriminate.
Qed.

Lemma not_lt_in_range (v : spec_float) :
  v <> S754_nan ->
  SFltb v float_zero = false ->
  SFltb float_one v = false ->
  in_range float_zero float_one v = true.
Proof.
  exact (not_lt_between v 8388608 (-23)).
Qed.

(** C9 as stated fails on a NaN: [std::clamp] hands it back, so the stored
    volume is a NaN, which is not within [0, 1]. *)
Lemma setVolume_nan_not_clamped :
  getVolume (setVolume S754_nan Examples.audio_player) = S754_nan
  /\ in_range float_zero float_one
       (getVolume (setVolume S754_nan Examples.audio_player)) = false.
Proof.
  split; reflexivity.
Qed.

(** C9, amended: for every float that is not a NaN (the infinities
    included) the volume stored by [setVolume] is that float clamped to
    [0, 1], so [getVolume()] is within [0, 1]; the call changes no other
    field of the player, in particular not the audio decoder, so what the
    device callback writes is the same before and after. *)
Theorem setVolume_clamps (v : spec_float) (m : t) :
  v <> S754_nan ->
  getVolume (setVolume v m) = clamp v float_zero float_one
  /\ in_range float_zero float_one (getVolume (setVolume v m)) = true
  /\ audioDecoder (setVolume v m) = audioDecoder m
  /\ videoDecoder (setVolume v m) = videoDecoder m
  /\ forall stream len,
       AudioDecoder.fillAudioBuffer stream len (audioDecoder (setVolume v m))
       = AudioDecoder.fillAudioBuffer stream len (audioDecoder m).
Proof.
  intros Hnan. split; [reflexivity|]. split.
  - unfold getVolume, setVolume, clamp. cbn [volume].
    destruct (SFltb v float_zero) eqn:Hlo.
    + reflexivity.
    + destruct (SFltb float_one v) eqn:Hhi.
      * reflexivity.
      * apply not_lt_in_range; assumption.
  - repeat split; reflexivity.
Qed.

Lemma setVolume_clamps_witness :
  S754_infinity false <> S754_nan
  /\ getVolume (setVolume (S754_infinity false) Examples.audio_player)
     = float_one.
Proof.
  split; [discriminate|].
  apply (proj1 (setVolume_clamps (S754_infinity false) Examples.audio_player
                  ltac:(discriminate))).
Defined.

End VolumeFacts.

(** ** The output callback *)

Section ListFacts.

Context {A : Type}.

Lemma firstn_within (n : nat) (a b : list A) :
  (n <= length a)%nat -> firstn n (a ++ b) = firstn n a.
Proof.
  intros H. rewrite firstn_app.
  replace (n - length a)%nat with O by lia.
  cbn. apply app_nil_r.
Qed.

Lemma firstn_beyond (n : nat) (a b : list A) :
  (length a <= n)%nat -> firstn n (a ++ b) = a ++ firstn (n - length a) b.
Proof.
  intros H. rewrite firstn_app. rewrite firstn_all2 by exact H. reflexivity.
Qed.

Lemma skipn_within (n : nat) (a b : list A) :
  (n <= length a)%nat -> skipn n (a ++ b) = skipn n a ++ b.
Proof.
  intros H. rewrite skipn_app.
  replace (n - length a)%nat with O by lia. reflexivity.
Qed.

Lemma skipn_beyond (n : nat) (a b : list A) :
  (length a <= n)%nat -> skipn n (a ++ b) = skipn (n - length a) b.
Proof.
  intros H. rewrite skipn_app. rewrite skipn_all2 by exact H. reflexivity.
Qed.

Lemma firstn_in_two (k n : nat) (l : list A) :
  (k <= n)%nat -> firstn k l ++ firstn (n - k) (skipn k l) = firstn n l.
Proof.
  revert n l. induction k as [|k IH]; intros n l H.
  - cbn. now rewrite Nat.sub_0_r.
  - destruct n as [|n]; [lia|]. destruct l as [|x l]; cbn.
    + now rewrite firstn_nil.
    + f_equal. apply IH. lia.
Qed.

Lemma skipn_repeat_sub (x : A) (k n : nat) :
  skipn k (repeat x n) = repeat x (n - k).
Proof.
  revert n. induction k as [|k IH]; intros n.
  - now rewrite Nat.sub_0_r.
  - destruct n as [|n]; cbn; [reflexivity|apply IH].
Qed.

(** Copying the next [k] of the bytes [rest] into [stream] at [p] and then
    the following [n - k] is copying [n] of them at [p]. *)
Lemma copy_in_two (stream rest : list A) (p k n : nat) :
  (k <= n)%nat ->
  (k <= length rest)%nat ->
  (p + n = length stream)%nat ->
  let stream2 := firstn p stream ++ firstn k rest ++ skipn (p + k) stream in
  firstn (p + k) stream2
  ++ firstn (n - k) (skipn k rest)
  ++ skipn (p + k + Nat.min (n - k) (length (skipn k rest))) stream2
  = firstn p stream
    ++ firstn n rest
    ++ skipn (p + Nat.min n (length rest)) stream.
Proof.
  intros Hkn Hk Hlen stream2.
  assert (Hp : length (firstn p stream) = p)
    by (rewrite length_firstn; lia).
  assert (Hc : length (firstn k rest) = k)
    by (rewrite length_firstn; lia).
  assert (Hpre : length (firstn p stream ++ firstn k rest) = (p + k)%nat)
    by (rewrite length_app; lia).
  unfold stream2. rewrite (app_assoc (firstn p stream)).
  rewrite firstn_within by lia.
  rewrite firstn_all2 by lia.
  rewrite skipn_beyond by lia.
  rewrite Hpre, skipn_skipn, length_skipn.
  rewrite <- !app_assoc. f_equal.
  rewrite app_assoc, firstn_in_two by exact Hkn.
  f_equal. f_equal. lia.
Qed.

End ListFacts.

Lemma to_int_small (x : Z) : 0 <= x <= INT_MAX -> to_int x = x.
Proof.
  unfold to_int, INT_MAX.
  change (2 ^ 31) with 2147483648. change (2 ^ 32) with 4294967296.
  intros H. rewrite Z.mod_small by lia. lia.
Qed.

Section CallbackFacts.

Import AudioDecoder.

(** Taking the next block changes neither the bytes to come nor their
    order; it fails only when no byte is left. *)
Lemma refill_spec (d : t) :
  sizes_fit d ->
  match refill d with
  | None => remaining d = [] /\ audioFrameQueue d = []
  | Some d1 =>
      remaining d1 = remaining d
      /\ sizes_fit d1
      /\ bufferPosition d1 <= buffer_size d1
      /\ ((length (audioFrameQueue d1) < length (audioFrameQueue d))%nat
          \/ (audioFrameQueue d1 = audioFrameQueue d
              /\ bufferPosition d1 < buffer_size d1))
  end.
Proof.
  destruct d as [fc asi dev dcd ps pp ss q ct ab bp cl].
  unfold refill, remaining, sizes_fit, buffer_size.
  cbn [bufferPosition audioBuffer audioFrameQueue].
  intros (Hpos & Hbuf & Hq).
  destruct (Z.geb_spec bp (Z.of_nat (length ab))) as [Hge|Hlt].
  - assert (Hnil : skipn (Z.to_nat bp) ab = [])
      by (apply skipn_all2; lia).
    destruct q as [|f rest].
    + rewrite Hnil. auto.
    + cbn. rewrite Hnil. cbn. inversion Hq; subst.
      repeat split; auto; try lia.
  - cbn [bufferPosition audioBuffer audioFrameQueue].
    repeat split; auto; try lia.
Qed.

(** One turn of the loop copies the next [k] bytes to come. *)
Lemma fill_body_spec (s : FillState) :
  0 < bytesNeeded s ->
  0 <= streamPos s ->
  sizes_fit (fs_dec s) ->
  match fill_body s with
  | None =>
      remaining (fs_dec s) = [] /\ audioFrameQueue (fs_dec s) = []
  | Some s' =>
      exists k : nat,
        (k <= Z.to_nat (bytesNeeded s))%nat
        /\ (k <= length (remaining (fs_dec s)))%nat
        /\ bytesNeeded s' = bytesNeeded s - Z.of_nat k
        /\ streamPos s' = streamPos s + Z.of_nat k
        /\ fs_stream s'
           = firstn (Z.to_nat (streamPos s)) (fs_stream s)
             ++ firstn k (remaining (fs_dec s))
             ++ skipn (Z.to_nat (streamPos s) + k) (fs_stream s)
        /\ remaining (fs_dec s') = skipn k (remaining (fs_dec s))
        /\ sizes_fit (fs_dec s')
        /\ (Z.to_nat (bytesNeeded s')
            + length (audioFrameQueue (fs_dec s'))
            < Z.to_nat (bytesNeeded s)
              + length (audioFrameQueue (fs_dec s)))%nat
  end.
Proof.
  destruct s as [d stream needed pos]. cbn [bytesNeeded streamPos fs_dec fs_stream].
  intros Hneeded Hpos Hfit. unfold fill_body. cbn [fs_dec].
  pose proof (refill_spec d Hfit) as Hre.
  destruct (refill d) as [d1|]; [|exact Hre].
  destruct Hre as (Hrem & Hfit1 & Hle & Hless).
  destruct d1 as [fc asi dev dcd ps pp ss q ct ab bp cl].
  unfold remaining, sizes_fit, buffer_size in *.
  cbn [bufferPosition audioBuffer audioFrameQueue set_bufferPosition
       bytesNeeded streamPos fs_dec fs_stream] in *.
  destruct Hfit1 as (Hbp & Hab & Hq).
  rewrite to_int_small by lia.
  set (avail := Z.of_nat (length ab) - bp) in *.
  set (copy := Z.min needed avail).
  assert (Hcopy : 0 <= copy <= avail /\ copy <= needed)
    by (unfold copy; lia).
  assert (Hskip : length (skipn (Z.to_nat bp) ab) = Z.to_nat avail)
    by (rewrite length_skipn; unfold avail; lia).
  exists (Z.to_nat copy).
  split; [lia|]. split; [rewrite <- Hrem, length_app; lia|].
  split; [lia|]. split; [lia|]. split.
  - unfold memcpy. rewrite <- Hrem.
    rewrite firstn_within by lia.
    rewrite Z2Nat.inj_add by lia. reflexivity.
  - split.
    + rewrite <- Hrem. rewrite skipn_within by lia.
      rewrite skipn_skipn. rewrite Z2Nat.inj_add by lia.
      rewrite Nat.add_comm. reflexivity.
    + split; [repeat split; auto; lia|].
      destruct Hless as [Hless|[Heq Hlt]].
      * lia.
      * rewrite Heq. unfold copy, avail in *. lia.
Qed.

(** With fuel for every byte and every block the loop ends, having copied
    the next bytes to come and nothing else. *)
Lemma fill_loop_spec (fuel : nat) :
  forall s : FillState,
    0 <= bytesNeeded s ->
    0 <= streamPos s ->
    sizes_fit (fs_dec s) ->
    length (fs_stream s)
    = (Z.to_nat (streamPos s) + Z.to_nat (bytesNeeded s))%nat ->
    (Z.to_nat (bytesNeeded s) + length (audioFrameQueue (fs_dec s))
     <= fuel)%nat ->
    exists s',
      fill_loop fuel s = Some s'
      /\ fs_stream s'
         = firstn (Z.to_nat (streamPos s)) (fs_stream s)
           ++ firstn (Z.to_nat (bytesNeeded s)) (remaining (fs_dec s))
           ++ skipn (Z.to_nat (streamPos s)
                     + Nat.min (Z.to_nat (bytesNeeded s))
                               (length (remaining (fs_dec s))))
                    (fs_stream s)
      /\ remaining (fs_dec s')
         = skipn (Z.to_nat (bytesNeeded s)) (remaining (fs_dec s))
      /\ sizes_fit (fs_dec s').
Proof.
  induction fuel as [|fuel IH]; intros s Hneeded Hpos Hfit Hlen Hfuel.
  - assert (Hz : bytesNeeded s = 0) by lia.
    exists s. cbn. rewrite Hz. cbn.
    rewrite Nat.add_0_r, firstn_skipn. auto.
  - cbn [fill_loop].
    destruct (Z.gtb_spec (bytesNeeded s) 0) as [Hgt|Hle].
    + pose proof (fill_body_spec s Hgt Hpos Hfit) as Hbody.
      destruct (fill_body s) as [s1|].
      * destruct Hbody as (k & Hk & Hkrem & Hn1 & Hp1 & Hs1 & Hr1 & Hf1 & Hm).
        assert (Hlen1 : length (fs_stream s1)
                        = (Z.to_nat (streamPos s1)
                           + Z.to_nat (bytesNeeded s1))%nat).
        { rewrite Hs1, !length_app, !length_firstn, length_skipn. lia. }
        destruct (IH s1 ltac:(lia) ltac:(lia) Hf1 Hlen1 ltac:(lia))
          as (s' & Hrun & Hout & Hrest & Hfit').
        exists s'. split; [exact Hrun|].
        replace (Z.to_nat (streamPos s1))
          with (Z.to_nat (streamPos s) + k)%nat in Hout by lia.
        replace (Z.to_nat (bytesNeeded s1))
          with (Z.to_nat (bytesNeeded s) - k)%nat in Hout, Hrest by lia.
        rewrite Hr1 in Hout, Hrest. rewrite Hs1 in Hout.
        split; [|split].
        -- rewrite Hout. apply copy_in_two; lia.
        -- rewrite Hrest, skipn_skipn. f_equal. lia.
        -- exact Hfit'.
      * destruct Hbody as (Hrem & _). exists s. rewrite Hrem.
        rewrite firstn_nil, skipn_nil. cbn [length app].
        rewrite Nat.min_0_r, Nat.add_0_r, firstn_skipn. auto.
    + assert (Hz : bytesNeeded s = 0) by lia.
      exists s. rewrite Hz. cbn.
      rewrite Nat.add_0_r, firstn_skipn. auto.
Qed.

End CallbackFacts.

Section CallbackTheorem.

Import AudioDecoder.

(** C3: [fillAudioBuffer(stream, len)] first zeroes the buffer, whatever
    it held; when playback is paused it returns at once, the buffer all
    silence and the decoder (queue, clock, current block) untouched;
    otherwise it copies the bytes to come, in order, as far as they go, and
    when the queue runs empty it stops, every byte it has not copied being
    silence.  It always returns: an under-run is no error. *)
Theorem fillAudioBuffer_silence (stream : list byte) (len : Z) (d : t) :
  0 <= len ->
  length stream = Z.to_nat len ->
  sizes_fit d ->
  exists out d',
    fillAudioBuffer stream len d = Some (out, d')
    /\ memset0 stream len = repeat silence (Z.to_nat len)
    /\ length out = Z.to_nat len
    /\ (playbackPaused d = true ->
        out = repeat silence (Z.to_nat len) /\ d' = d)
    /\ (playbackPaused d = false ->
        out = firstn (Z.to_nat len) (remaining d)
              ++ repeat silence (Z.to_nat len - length (remaining d))
        /\ remaining d' = skipn (Z.to_nat len) (remaining d))
    /\ (forall i : nat,
           (i < Z.to_nat len)%nat ->
           playbackPaused d = true \/ (length (remaining d) <= i)%nat ->
           nth_error out i = Some silence).
Proof.
  intros Hlen Hstream Hfit.
  assert (Hzero : memset0 stream len = repeat silence (Z.to_nat len)).
  { unfold memset0. rewrite skipn_all2 by lia. apply app_nil_r. }
  unfold fillAudioBuffer. rewrite Hzero.
  destruct (playbackPaused d) eqn:Hpaused.
  - exists (repeat silence (Z.to_nat len)), d.
    split; [reflexivity|]. split; [reflexivity|].
    split; [apply repeat_length|].
    split; [auto|]. split; [discriminate|].
    intros i Hi _. now apply nth_error_repeat.
  - destruct (fill_loop_spec (fill_fuel len d)
                (mkFill d (repeat silence (Z.to_nat len)) len 0))
      as (s' & Hrun & Hout & Hrest & _);
      cbn [bytesNeeded streamPos fs_dec fs_stream];
      try lia; try assumption.
    + rewrite repeat_length. reflexivity.
    + unfold fill_fuel. lia.
    + cbn [bytesNeeded streamPos fs_dec fs_stream] in Hout, Hrest.
      rewrite Hrun.
      change (Z.to_nat 0) with O in Hout. cbn [firstn app Nat.add] in Hout.
      rewrite skipn_repeat_sub in Hout.
      replace (Z.to_nat len
               - Nat.min (Z.to_nat len) (length (remaining d)))%nat
        with (Z.to_nat len - length (remaining d))%nat in Hout by lia.
      exists (fs_stream s'), (fs_dec s').
      split; [reflexivity|]. split; [reflexivity|].
      split; [rewrite Hout, length_app, length_firstn, repeat_length; lia|].
      split; [discriminate|]. split; [auto|].
      intros i Hi [Hp|Hge]; [discriminate|].
      rewrite Hout.
      rewrite nth_error_app2 by (rewrite length_firstn; lia).
      apply nth_error_repeat. rewrite length_firstn. lia.
Qed.

Lemma fillAudioBuffer_silence_witness :
  exists out d',
    fillAudioBuffer Examples.stale_stream 8 Examples.one_block_queued
    = Some (out, d')
    /\ length out = 8%nat.
Proof.
  destruct (fillAudioBuffer_silence Examples.stale_stream 8
              Examples.one_block_queued)
    as (out & d' & Hrun & _ & Hlen & _).
  - lia.
  - reflexivity.
  - assert (Hq : audioFrameQueue Examples.one_block_queued
                 = [mkAudioFrame [x01; x02; x03; x04] 3 (3 # 10)])
      by (vm_compute; reflexivity).
    unfold sizes_fit. rewrite Hq.
    split; [vm_compute; discriminate|].
    split; [vm_compute; discriminate|].
    constructor; [vm_compute; discriminate|constructor].
  - exists out, d'. split; assumption.
Defined.

End CallbackTheorem.

(** ** The playback clock *)

Section ClockFacts.

Import AudioDecoder.

Lemma refill_clock (d d1 : t) :
  clock_ordered d ->
  refill d = Some d1 ->
  (currentTime d <= currentTime d1)%Q
  /\ clock_ordered d1
  /\ (currentTime d1 = currentTime d
      \/ exists f rest,
           audioFrameQueue d = f :: rest
           /\ audioFrameQueue d1 = rest
           /\ currentTime d1 = timestamp f).
Proof.
  destruct d as [fc asi dev dcd ps pp ss q ct ab bp cl].
  unfold clock_ordered, refill, buffer_size.
  cbn [bufferPosition audioBuffer audioFrameQueue currentTime].
  intros Hord.
  destruct (bp >=? Z.of_nat (length ab)).
  - destruct q as [|f rest]; [discriminate|].
    intros H. inversion H; subst; clear H. cbn in *.
    destruct Hord as [Hle Hrest].
    split; [exact Hle|]. split; [exact Hrest|].
    right. exists f, rest. auto.
  - intros H. inversion H; subst; clear H. cbn.
    split; [apply Qle_refl|]. split; [exact Hord|]. left. reflexivity.
Qed.

Lemma fill_body_clock (s s' : FillState) :
  clock_ordered (fs_dec s) ->
  fill_body s = Some s' ->
  (currentTime (fs_dec s) <= currentTime (fs_dec s'))%Q
  /\ clock_ordered (fs_dec s')
  /\ (currentTime (fs_dec s') = currentTime (fs_dec s)
      \/ exists f rest,
           audioFrameQueue (fs_dec s) = f :: rest
           /\ audioFrameQueue (fs_dec s') = rest
           /\ currentTime (fs_dec s') = timestamp f).
Proof.
  intros Hord. unfold fill_body.
  destruct (refill (fs_dec s)) as [d1|] eqn:Hre; [|discriminate].
  intros H. inversion H; subst; clear H.
  destruct (refill_clock _ _ Hord Hre) as (Hle & Hord1 & Hwhich).
  destruct d1 as [fc asi dev dcd ps pp ss q ct ab bp cl].
  cbn in *. auto.
Qed.

Lemma fill_loop_clock (fuel : nat) :
  forall s s',
    clock_ordered (fs_dec s) ->
    fill_loop fuel s = Some s' ->
    (currentTime (fs_dec s) <= currentTime (fs_dec s'))%Q
    /\ clock_ordered (fs_dec s').
Proof.
  induction fuel as [|fuel IH]; intros s s' Hord; cbn [fill_loop].
  - destruct (bytesNeeded s >? 0); [discriminate|].
    intros H. inversion H; subst. split; [apply Qle_refl|exact Hord].
  - destruct (bytesNeeded s >? 0).
    + destruct (fill_body s) as [s1|] eqn:Hbody.
      * intros Hrun.
        destruct (fill_body_clock _ _ Hord Hbody) as (Hle & Hord1 & _).
        destruct (IH _ _ Hord1 Hrun) as (Hle' & Hord').
        split; [eapply Qle_trans; eassumption|exact Hord'].
      * intros H. inversion H; subst. split; [apply Qle_refl|exact Hord].
    + intros H. inversion H; subst. split; [apply Qle_refl|exact Hord].
Qed.

Lemma fillAudioBuffer_clock stream len (d : t) out d' :
  clock_ordered d ->
  fillAudioBuffer stream len d = Some (out, d') ->
  (currentTime d <= currentTime d')%Q /\ clock_ordered d'.
Proof.
  intros Hord. unfold fillAudioBuffer.
  destruct (playbackPaused d).
  - intros H. inversion H; subst. split; [apply Qle_refl|exact Hord].
  - destruct (fill_loop _ _) as [s'|] eqn:Hrun; [|discriminate].
    intros H. inversion H; subst.
    exact (fill_loop_clock _ (mkFill d _ _ _) _ Hord Hrun).
Qed.

Lemma last_default_irrelevant (x : Q) (l : list Q) (a b : Q) :
  last (x :: l) a = last (x :: l) b.
Proof.
  revert x. induction l as [|y l IH]; intros x; [reflexivity|].
  change (last (x :: y :: l) a) with (last (y :: l) a).
  change (last (x :: y :: l) b) with (last (y :: l) b).
  apply IH.
Qed.

Lemma ordered_from_snoc (q : list AudioFrame) (f : AudioFrame) :
  forall c : Q,
    ordered_from c q ->
    (last (map timestamp q) c <= timestamp f)%Q ->
    ordered_from c (q ++ [f]).
Proof.
  induction q as [|g q IH]; intros c Hord Hlast.
  - cbn in *. auto.
  - destruct Hord as [Hle Hrest]. cbn [app ordered_from].
    split; [exact Hle|]. apply IH; [exact Hrest|].
    destruct q as [|h q]; [exact Hlast|].
    cbn [map] in *.
    rewrite (last_default_irrelevant _ _ (timestamp g) c).
    exact Hlast.
Qed.





End ClockFacts.

(** ** The decode worker *)

Section WorkerFacts.

Import AudioDecoder.

Variable bufsize : Z -> Z.
Variable time_base : Q.





(** The thread running alone through the frames of one packet does what
    [receive_loop] does. *)
Lemma receiving_run (frames : list AVFrame) :
  forall d : t,
    match receive_loop bufsize time_base frames d with
    | Returned d' =>
        worker_run bufsize time_base (S (length frames)) (Receiving frames) d
        = (LoopTest, d')
    | Aborted =>
        exists n d',
          worker_run bufsize time_base n (Receiving frames) d = (Crashed, d')
    end.
Proof.
  induction frames as [|frame rest IH]; intros d.
  - reflexivity.
  - cbn [receive_loop bind].
    destruct (receive_one bufsize time_base frame d) as [d1|] eqn:Hone.
    + cbn [bind]. specialize (IH d1).
      destruct (receive_loop bufsize time_base rest d1) as [d'|].
      * cbn [length].
        change (worker_run bufsize time_base (S (S (length rest)))
                  (Receiving (frame :: rest)) d)
          with (match worker_step bufsize time_base
                        (Receiving (frame :: rest)) d with
                | Some (pc', d') =>
                    worker_run bufsize time_base (S (length rest)) pc' d'
                | None => (Receiving (frame :: rest), d)
                end).
        cbn [worker_step]. rewrite Hone. exact IH.
      * destruct IH as (n & d' & Hrun). exists (S n), d'.
        cbn [worker_run worker_step]. rewrite Hone. exact Hrun.
    + cbn [bind]. exists 1%nat, d. cbn [worker_run worker_step].
      rewrite Hone. reflexivity.
Qed.

(** From its call in [decodingLoop] on, the thread running alone does
    what [decodeNextFrame] does: back to the loop test on [true], out of
    the loop on [false]. *)
Lemma decode_run (d : t) :
  match decodeNextFrame bufsize time_base d with
  | Returned (true, d') =>
      exists n, worker_run bufsize time_base n Decode d = (LoopTest, d')
  | Returned (false, d') =>
      worker_run bufsize time_base 1 Decode d = (Exited, d')
  | Aborted =>
      exists n d', worker_run bufsize time_base n Decode d = (Crashed, d')
  end.
Proof.
  unfold decodeNextFrame, bind.
  destruct (read_and_send d) as [[d1|d1|frames d1]|] eqn:Hsend.
  - cbn [worker_run worker_step]. rewrite Hsend. reflexivity.
  - exists 1%nat. cbn [worker_run worker_step]. rewrite Hsend. reflexivity.
  - pose proof (receiving_run frames d1) as Hrun.
    destruct (receive_loop bufsize time_base frames d1) as [d'|].
    + exists (S (S (length frames))).
      change (worker_run bufsize time_base (S (S (length frames))) Decode d)
        with (match worker_step bufsize time_base Decode d with
              | Some (pc', d') =>
                  worker_run bufsize time_base (S (length frames)) pc' d'
              | None => (Decode, d)
              end).
      cbn [worker_step]. rewrite Hsend. exact Hrun.
    + destruct Hrun as (n & d' & Hrun). exists (S n), d'.
      cbn [worker_run worker_step]. rewrite Hsend. exact Hrun.
  - exists 1%nat, d. cbn [worker_run worker_step]. rewrite Hsend. reflexivity.
Qed.


End WorkerFacts.

Section WorkerTheorems.

Import AudioDecoder.







End WorkerTheorems.

(** ** Backpressure *)

Section QueueBound.

Import AudioDecoder.

Variable bufsize : Z -> Z.
Variable time_base : Q.
Variable K : nat.

Lemma harmless_keeps_bound (pc : WorkerPC) (d d' : t) :
  harmless K d d' ->
  bound_inv K (mkSys pc d) ->
  bound_inv K (mkSys pc d').
Proof.
  unfold bound_inv. cbn [worker dec].
  intros (Hsize & Hsrc & Hstop) (Hb & Hq & Hpc).
  split; [auto|]. split; [lia|].
  destruct pc; auto; try lia.
  destruct Hpc as [Hpc|Hpc]; [left; lia|right; auto].
Qed.

Lemma refill_harmless (d d1 : t) :
  refill d = Some d1 -> harmless K d d1.
Proof.
  destruct d as [fc asi dev dcd ps pp ss q ct ab bp cl].
  unfold refill, harmless, queue_size, source_bounded, buffer_size.
  cbn [bufferPosition audioBuffer audioFrameQueue].
  destruct (bp >=? Z.of_nat (length ab)).
  - destruct q as [|f rest]; [discriminate|].
    intros H. inversion H; subst; clear H. cbn. repeat split; auto. lia.
  - intros H. inversion H; subst; clear H. cbn. repeat split; auto. lia.
Qed.

Lemma fill_body_harmless (s s' : FillState) :
  fill_body s = Some s' -> harmless K (fs_dec s) (fs_dec s').
Proof.
  unfold fill_body.
  destruct (refill (fs_dec s)) as [d1|] eqn:Hre; [|discriminate].
  intros H. inversion H; subst; clear H.
  apply refill_harmless in Hre.
  destruct d1 as [fc asi dev dcd ps pp ss q ct ab bp cl].
  exact Hre.
Qed.

Lemma clearQueue_harmless (d : t) : harmless K d (clearQueue d).
Proof.
  destruct d as [fc asi dev dcd ps pp ss q ct ab bp cl].
  unfold harmless, queue_size, source_bounded. cbn.
  repeat split; auto. lia.
Qed.

Lemma pausePlayback_harmless (d : t) : harmless K d (pausePlayback d).
Proof.
  destruct d as [fc asi dev dcd ps pp ss q ct ab bp cl].
  unfold harmless, queue_size, source_bounded, pausePlayback. cbn.
  destruct (ps && negb pp); cbn; repeat split; auto; lia.
Qed.

Lemma resumePlayback_harmless (d : t) : harmless K d (resumePlayback d).
Proof.
  destruct d as [fc asi dev dcd ps pp ss q ct ab bp cl].
  unfold harmless, queue_size, source_bounded, resumePlayback. cbn.
  destruct (ps && pp); cbn; repeat split; auto; lia.
Qed.

Lemma signal_stop_harmless (d : t) : harmless K d (signal_stop d).
Proof.
  destruct d as [fc asi dev dcd ps pp ss q ct ab bp cl].
  unfold harmless, queue_size, source_bounded, signal_stop. cbn.
  repeat split; auto; lia.
Qed.

Lemma seekToTime_harmless (seconds : Q) (d : t) :
  harmless K d (snd (seekToTime seconds d)).
Proof.
  destruct d as [fc asi dev dcd ps pp ss q ct ab bp cl].
  unfold harmless, queue_size, source_bounded, seekToTime, av_seek_frame,
    isPlaying, pausePlayback, resumePlayback.
  cbn [formatContext playbackStarted playbackPaused audioDevice].
  generalize (to_int64 (binary64_mul (to_double seconds)
                                     (int_to_double AV_TIME_BASE))).
  intros ts.
  destruct fc as [ctx|].
  - destruct (seek_table ctx ts) as [l|] eqn:Hseek;
      destruct ps, pp; cbn; (split; [lia|]); (split; [|auto]);
      try (intros [Hpend Hall]; split; eauto); auto.
  - cbn. repeat split; auto; lia.
Qed.

(** The first part of [decodeNextFrame] touches the demuxer only, and
    hands out the frames of one packet of the source. *)
Lemma read_and_send_bound (d : t) :
  source_bounded K d ->
  match read_and_send d with
  | Returned (SendFalse d') | Returned (SendSkip d') =>
      source_bounded K d' /\ queue_size d' = queue_size d
      /\ shouldStop d' = shouldStop d
  | Returned (SendOk frames d') =>
      source_bounded K d' /\ queue_size d' = queue_size d
      /\ shouldStop d' = shouldStop d
      /\ (length frames <= K)%nat
  | Aborted => True
  end.
Proof.
  destruct d as [fc asi dev dcd ps pp ss q ct ab bp cl].
  unfold read_and_send, av_read_frame, source_bounded, queue_size.
  cbn [formatContext audioStreamIndex audioFrameQueue shouldStop].
  destruct fc as [ctx|]; [|intros _; exact I].
  destruct ctx as [pend seeks]. cbn [pending seek_table].
  intros [Hpend Hall].
  destruct pend as [|[p|] rest]; cbn.
  - auto.
  - inversion Hpend as [|x l Hp Hrest]; subst.
    destruct (negb (stream_index p =? asi)); [cbn; auto|].
    destruct (send_packet_ret p <? 0); cbn; auto.
  - inversion Hpend; subst. auto.
Qed.

Lemma receive_one_bound (frame : AVFrame) (d d' : t) :
  receive_one bufsize time_base frame d = Returned d' ->
  (source_bounded K d -> source_bounded K d')
  /\ queue_size d' <= queue_size d + 1
  /\ shouldStop d' = shouldStop d.
Proof.
  destruct d as [fc asi dev dcd ps pp ss q ct ab bp cl].
  unfold receive_one, bind, source_bounded, queue_size.
  destruct (convertAudioFrame bufsize time_base frame fresh_frame)
    as [[ok af]|]; [|discriminate].
  destruct ok; cbn; intros H; inversion H; subst; clear H; cbn.
  - rewrite length_app. cbn. repeat split; auto. lia.
  - repeat split; auto. lia.
Qed.

Lemma worker_step_keeps_bound (pc pc' : WorkerPC) (d d' : t) :
  worker_step bufsize time_base pc d = Some (pc', d') ->
  bound_inv K (mkSys pc d) ->
  bound_inv K (mkSys pc' d').
Proof.
  unfold bound_inv, HIGH_WATERMARK. cbn [worker dec].
  intros Hstep (Hsrc & Hq & Hpc).
  destruct pc as [| | | | |frames| |]; cbn [worker_step] in Hstep.
  - destruct (isDecoding d && negb (shouldStop d));
      inversion Hstep; subst; auto.
  - destruct (Z.gtb_spec (queue_size d) HIGH_WATERMARK) as [Hgt|Hle];
      inversion Hstep; subst; auto.
  - unfold wait_predicate, LOW_WATERMARK in Hstep.
    destruct (Z.leb_spec (queue_size d) 5) as [Hle|Hgt];
      cbn [orb] in Hstep.
    + inversion Hstep; subst. repeat split; auto. left. lia.
    + destruct (shouldStop d) eqn:Hstop; inversion Hstep; subst.
      repeat split; auto.
  - destruct (shouldStop d) eqn:Hstop; inversion Hstep; subst; auto.
    destruct Hpc as [Hpc|Hpc]; [auto|discriminate].
  - pose proof (read_and_send_bound d Hsrc) as Hread.
    destruct (read_and_send d) as [[d1|d1|frames d1]|];
      inversion Hstep; subst.
    + destruct Hread as (H1 & H2 & _). repeat split; auto. lia.
    + destruct Hread as (H1 & H2 & _). repeat split; auto. lia.
    + destruct Hread as (H1 & H2 & _ & H4). repeat split; auto; lia.
    + auto.
  - destruct frames as [|frame rest].
    + inversion Hstep; subst. cbn [length] in Hpc. auto.
    + destruct (receive_one bufsize time_base frame d) as [d1|] eqn:Hone;
        inversion Hstep; subst.
      * destruct (receive_one_bound _ _ _ Hone) as (H1 & H2 & _).
        cbn [length] in Hpc. repeat split; auto; lia.
      * auto.
  - discriminate.
  - discriminate.
Qed.

Lemma sys_step_keeps_bound (s s' : Sys) :
  sys_step bufsize time_base s s' ->
  bound_inv K s ->
  bound_inv K s'.
Proof.
  intros Hstep. destruct Hstep.
  - now apply worker_step_keeps_bound.
  - apply harmless_keeps_bound.
    exact (fill_body_harmless (mkFill d stream needed pos) s' H).
  - apply harmless_keeps_bound, clearQueue_harmless.
  - apply harmless_keeps_bound, pausePlayback_harmless.
  - apply harmless_keeps_bound, resumePlayback_harmless.
  - apply harmless_keeps_bound, seekToTime_harmless.
  - apply harmless_keeps_bound, signal_stop_harmless.
Qed.

Lemma reachable_keeps_bound (s0 s : Sys) :
  reachable bufsize time_base s0 s ->
  bound_inv K s0 ->
  bound_inv K s.
Proof.
  induction 1 as [|s s' _ IH Hstep]; intros Hinit; [exact Hinit|].
  eapply sys_step_keeps_bound; eauto.
Qed.

(** The thread running alone stays within the reachable states. *)
Lemma worker_run_reachable (s0 : Sys) (n : nat) :
  forall pc d,
    reachable bufsize time_base s0 (mkSys pc d) ->
    reachable bufsize time_base s0
      (mkSys (fst (worker_run bufsize time_base n pc d))
             (snd (worker_run bufsize time_base n pc d))).
Proof.
  induction n as [|n IH]; intros pc d Hreach; [exact Hreach|].
  cbn [worker_run].
  destruct (worker_step bufsize time_base pc d) as [[pc' d']|] eqn:Hstep.
  - apply IH. eapply reach_step; [exact Hreach|].
    now apply step_worker.
  - exact Hreach.
Qed.

End QueueBound.

Section QueueBoundTheorems.

Import AudioDecoder.

(** C2 as stated fails: ten blocks are queued when a packet that yields
    two frames is read; the first takes the length to eleven, above the
    high watermark, and the producer, not suspended and with no stop
    signalled, pushes the second onto it. *)
Lemma producer_pushes_above_high_watermark :
  reachable Examples.buffer_size_s16 Examples.tick
    Examples.burst_start (Examples.burst_state 65)
  /\ sys_step Examples.buffer_size_s16 Examples.tick
       (Examples.burst_state 65) (Examples.burst_state 66)
  /\ queue_size (dec (Examples.burst_state 65)) = 11
  /\ queue_size (dec (Examples.burst_state 66)) = 12
  /\ shouldStop (dec (Examples.burst_state 66)) = false
  /\ worker (Examples.burst_state 65) = Receiving [Examples.good_frame 11]
  /\ worker (Examples.burst_state 66) = Receiving [].
Proof.
  split.
  - unfold Examples.burst_state, Examples.burst_start.
    apply worker_run_reachable. apply reach_init.
  - split.
    + unfold Examples.burst_state. apply step_worker.
      vm_compute. reflexivity.
    + repeat split; vm_compute; reflexivity.
Qed.

(** C2, amended: the watermark is tested once per turn of the decoding
    loop, before a packet is read.  When the test finds more than 10
    blocks queued the producer suspends, and it proceeds only once the
    length is 5 or less or the stop signal is raised; so a packet is only
    read with at most 10 blocks queued.  All the frames of that packet are
    then pushed without a further test: under every interleaving with the
    callback and the control thread the queue length stays within 10 plus
    the largest number of frames a packet of the source yields. *)
Theorem queue_bounded_by_watermark_and_packet
        (bufsize : Z -> Z) (time_base : Q) (K : nat) (s0 s : Sys) :
  worker s0 = LoopTest ->
  audioFrameQueue (dec s0) = [] ->
  source_bounded K (dec s0) ->
  reachable bufsize time_base s0 s ->
  queue_size (dec s) <= HIGH_WATERMARK + Z.of_nat K
  /\ (worker s = Decode -> queue_size (dec s) <= HIGH_WATERMARK)
  /\ (worker s = QueueCheck ->
      queue_size (dec s) > HIGH_WATERMARK ->
      worker_step bufsize time_base (worker s) (dec s)
      = Some (Waiting, dec s))
  /\ (worker s = Waiting ->
      forall pc' d',
        worker_step bufsize time_base (worker s) (dec s) = Some (pc', d') ->
        (queue_size (dec s) <= LOW_WATERMARK \/ shouldStop (dec s) = true)
        /\ pc' = StopCheck /\ d' = dec s).
Proof.
  intros Hpc Hempty Hsrc Hreach.
  assert (Hinit : bound_inv K s0).
  { unfold bound_inv, queue_size, HIGH_WATERMARK.
    rewrite Hpc, Hempty. cbn [length]. split; [exact Hsrc|]. split; [lia|auto]. }
  pose proof (reachable_keeps_bound bufsize time_base K s0 s Hreach Hinit)
    as (_ & Hq & Hat).
  split; [exact Hq|]. split; [|split].
  - intros Hw. rewrite Hw in Hat. exact Hat.
  - intros Hw Hgt. rewrite Hw. cbn [worker_step].
    destruct (Z.gtb_spec (queue_size (dec s)) HIGH_WATERMARK);
      [reflexivity|lia].
  - intros Hw pc' d'. rewrite Hw. cbn [worker_step].
    unfold wait_predicate.
    destruct (Z.leb_spec (queue_size (dec s)) LOW_WATERMARK) as [Hle|Hgt];
      cbn [orb].
    + intros H. inversion H; subst. auto.
    + destruct (shouldStop (dec s)) eqn:Hstop; intros H; inversion H; subst.
      auto.
Qed.

Lemma queue_bounded_witness :
  queue_size (dec (Examples.burst_state 70))
  <= HIGH_WATERMARK + Z.of_nat 2.
Proof.
  apply (proj1 (queue_bounded_by_watermark_and_packet
                  Examples.buffer_size_s16 Examples.tick 2
                  Examples.burst_start (Examples.burst_state 70)
                  eq_refl
                  ltac:(vm_compute; reflexivity)
                  ltac:(vm_compute; split;
                        [repeat (constructor; [lia|]); constructor
                        |intros; discriminate])
                  ltac:(unfold Examples.burst_state, Examples.burst_start;
                        apply worker_run_reachable; apply reach_init))).
Defined.

Lemma queue_size_set (q : list AudioFrame) (d : t) :
  queue_size (set_audioFrameQueue q d) = Z.of_nat (length q).
Proof. destruct d; reflexivity. Qed.

Lemma shouldStop_set_queue (q : list AudioFrame) (d : t) :
  shouldStop (set_audioFrameQueue q d) = shouldStop d.
Proof. destruct d; reflexivity. Qed.

Lemma convert_good_frame :
  convertAudioFrame Examples.buffer_size_s16 Examples.tick
    (Examples.good_frame 0) fresh_frame
  = Returned (true, Examples.good_block).
Proof. vm_compute. reflexivity. Qed.

Lemma receive_loop_good (n : nat) :
  forall d : t,
    receive_loop Examples.buffer_size_s16 Examples.tick
      (repeat (Examples.good_frame 0) n) d
    = Returned (set_audioFrameQueue
                  (audioFrameQueue d ++ repeat Examples.good_block n) d).
Proof.
  induction n as [|n IH]; intros d.
  - destruct d as [fc asi dev dcd ps pp ss q ct ab bp cl].
    cbn. now rewrite app_nil_r.
  - cbn [repeat receive_loop]. unfold receive_one at 1.
    rewrite convert_good_frame. cbn [bind fst snd]. rewrite IH.
    destruct d as [fc asi dev dcd ps pp ss q ct ab bp cl].
    cbn. now rewrite <- app_assoc.
Qed.

(** No number caps the queue: a packet of [N + 1] frames takes it past
    [N], with no stop signalled. *)
Lemma queue_has_no_fixed_cap (N : nat) :
  exists s,
    reachable Examples.buffer_size_s16 Examples.tick
      (mkSys LoopTest
             (Examples.started (Examples.wide_stream (S N)) Examples.no_seek))
      s
    /\ Z.of_nat N < queue_size (dec s)
    /\ shouldStop (dec s) = false.
Proof.
  set (s0 := mkSys LoopTest
               (Examples.started (Examples.wide_stream (S N))
                                 Examples.no_seek)).
  set (frames := repeat (Examples.good_frame 0) (S N)).
  assert (H4 : worker_run Examples.buffer_size_s16 Examples.tick 4 LoopTest
                 (Examples.started (Examples.wide_stream (S N))
                                   Examples.no_seek)
               = (Receiving frames, Examples.started [] Examples.no_seek))
    by (vm_compute; reflexivity).
  pose proof (worker_run_reachable Examples.buffer_size_s16 Examples.tick
                s0 4 LoopTest _
                (reach_init Examples.buffer_size_s16 Examples.tick s0))
    as Hreach.
  rewrite H4 in Hreach. cbn [fst snd] in Hreach.
  pose proof (worker_run_reachable Examples.buffer_size_s16 Examples.tick
                s0 (S (length frames)) _ _ Hreach) as Hreach'.
  pose proof (receiving_run Examples.buffer_size_s16 Examples.tick frames
                (Examples.started [] Examples.no_seek)) as Hrun.
  unfold frames in Hrun at 1. rewrite receive_loop_good in Hrun.
  rewrite Hrun in Hreach'. cbn [fst snd] in Hreach'.
  eexists. split; [exact Hreach'|].
  assert (Hq : audioFrameQueue (Examples.started [] Examples.no_seek) = [])
    by (vm_compute; reflexivity).
  assert (Hs : shouldStop (Examples.started [] Examples.no_seek) = false)
    by (vm_compute; reflexivity).
  cbn [dec]. rewrite queue_size_set, shouldStop_set_queue, Hq, Hs.
  cbn [app]. rewrite repeat_length. split; [lia|reflexivity].
Qed.

End QueueBoundTheorems.

(** ** Transport: start, stop, pause, resume, open, close *)

Section TransportFacts.

Import AudioDecoder.

(** X1: [stopPlayback] on a started decoder raises the stop flags, joins the
    thread, closes the device and resets playback: nothing queued, no
    current block, clock at 0, not started, not paused; the file stays
    open at the position the demuxer has reached.  A second call changes
    nothing. *)
Theorem stopPlayback_resets (d : t) :
  playbackStarted d = true ->
  let d' := stopPlayback d in
  playbackStarted d' = false
  /\ playbackPaused d' = false
  /\ isPlaying d' = false
  /\ shouldStop d' = true
  /\ isDecoding d' = false
  /\ audioDevice d' = 0
  /\ audioFrameQueue d' = []
  /\ audioBuffer d' = []
  /\ bufferPosition d' = 0
  /\ getCurrentTime d' = 0%Q
  /\ formatContext d' = formatContext d
  /\ calls d'
     = calls d ++ thread_join
         :: (if audioDevice d =? 0 then []
             else [SDL_CloseAudioDevice (audioDevice d)])
  /\ stopPlayback d' = d'.
Proof.
  destruct d as [fc asi dev dcd ps pp ss q ct ab bp cl].
  cbn [playbackStarted]. intros ->.
  unfold stopPlayback, isPlaying. cbn.
  destruct (Z.eqb_spec dev 0) as [->|Hdev]; cbn; rewrite <- ?app_assoc;
    repeat split; reflexivity.
Qed.

Lemma stopPlayback_resets_witness :
  playbackStarted (stopPlayback (Examples.started [] Examples.no_seek))
  = false.
Proof.
  exact (proj1 (stopPlayback_resets (Examples.started [] Examples.no_seek)
                  ltac:(vm_compute; reflexivity))).
Defined.

(** X2: [startPlayback] on a decoder that is not started succeeds exactly
    when the device opens.  When it does not, nothing but the device id and
    the call log changes; when it does, the queue and the current block
    are emptied, the decoding flags are armed, the thread is started and
    the device unpaused, while the clock and the demuxer position (what
    an earlier seek set) are kept. *)
Theorem startPlayback_arms (dev : Z) (d : t) :
  playbackStarted d = false ->
  let r := startPlayback dev d in
  fst r = negb (dev =? 0)
  /\ (dev = 0 ->
      snd r = set_audioDevice 0 (call SDL_OpenAudioDevice d))
  /\ (dev <> 0 ->
      isPlaying (snd r) = true
      /\ audioDevice (snd r) = dev
      /\ isDecoding (snd r) = true
      /\ shouldStop (snd r) = false
      /\ audioFrameQueue (snd r) = []
      /\ audioBuffer (snd r) = []
      /\ bufferPosition (snd r) = 0
      /\ getCurrentTime (snd r) = getCurrentTime d
      /\ formatContext (snd r) = formatContext d
      /\ calls (snd r)
         = calls d ++ [SDL_OpenAudioDevice; thread_start;
                       SDL_PauseAudioDevice dev 0]).
Proof.
  destruct d as [fc asi dv dcd ps pp ss q ct ab bp cl].
  cbn [playbackStarted]. intros ->.
  unfold startPlayback, isPlaying. cbn.
  destruct (Z.eqb_spec dev 0) as [->|Hne]; cbn.
  - split; [reflexivity|]. split; [reflexivity|]. intros H. now contradiction H.
  - split; [reflexivity|]. split; [intros H; contradiction|]. intros _.
    rewrite <- !app_assoc. repeat split; reflexivity.
Qed.

Lemma startPlayback_arms_witness :
  fst (startPlayback 2 (Examples.opened [] Examples.no_seek))
  = negb (2 =? 0).
Proof.
  exact (proj1 (startPlayback_arms 2 (Examples.opened [] Examples.no_seek)
                  eq_refl)).
Defined.

(** X3: pausing a playing decoder and resuming it gives back the same
    decoder, two device calls apart; pausing keeps everything buffered
    (queue, current block, position, clock), and pausing twice is pausing
    once. *)
Theorem pause_resume_round_trip (d : t) :
  isPlaying d = true ->
  resumePlayback (pausePlayback d)
  = call (SDL_PauseAudioDevice (audioDevice d) 0)
         (call (SDL_PauseAudioDevice (audioDevice d) 1) d)
  /\ isPlaying (pausePlayback d) = false
  /\ isPlaying (resumePlayback (pausePlayback d)) = true
  /\ pausePlayback (pausePlayback d) = pausePlayback d
  /\ audioFrameQueue (pausePlayback d) = audioFrameQueue d
  /\ audioBuffer (pausePlayback d) = audioBuffer d
  /\ bufferPosition (pausePlayback d) = bufferPosition d
  /\ getCurrentTime (pausePlayback d) = getCurrentTime d.
Proof.
  destruct d as [fc asi dev dcd ps pp ss q ct ab bp cl].
  unfold isPlaying, pausePlayback, resumePlayback. cbn.
  destruct ps, pp; cbn; try discriminate. intros _.
  repeat split; reflexivity.
Qed.

Lemma pause_resume_round_trip_witness :
  isPlaying (pausePlayback (Examples.started [] Examples.no_seek)) = false.
Proof.
  exact (proj1 (proj2 (pause_resume_round_trip
                         (Examples.started [] Examples.no_seek)
                         ltac:(vm_compute; reflexivity)))).
Defined.

(** Reduce setters and getters applied to explicit fields. *)
Ltac fields :=
  cbv [set_formatContext set_audioStreamIndex set_audioDevice set_isDecoding
       set_playbackStarted set_playbackPaused set_shouldStop
       set_audioFrameQueue set_currentTime set_audioBuffer
       set_bufferPosition call clearQueue
       formatContext audioStreamIndex audioDevice isDecoding
       playbackStarted playbackPaused shouldStop audioFrameQueue
       currentTime audioBuffer bufferPosition calls negb andb fst snd].

(** [stopPlayback] on explicit fields. *)
Lemma stopPlayback_started fc asi dev dcd pp ss q ct ab bp cl :
  stopPlayback (mk fc asi dev dcd true pp ss q ct ab bp cl)
  = mk fc asi 0 false false false true [] 0%Q [] 0
       (cl ++ thread_join
           :: (if dev =? 0 then [] else [SDL_CloseAudioDevice dev])).
Proof.
  unfold stopPlayback. fields.
  destruct (Z.eqb_spec dev 0) as [->|Hdev]; fields; rewrite <- ?app_assoc;
    reflexivity.
Qed.

Lemma stopPlayback_not_started fc asi dev dcd pp ss q ct ab bp cl :
  stopPlayback (mk fc asi dev dcd false pp ss q ct ab bp cl)
  = mk fc asi dev dcd false pp ss q ct ab bp cl.
Proof. reflexivity. Qed.

Lemma close_started fc asi dev dcd pp ss q ct ab bp cl :
  close (mk fc asi dev dcd true pp ss q ct ab bp cl)
  = mk None (-1) 0 false false false true [] 0%Q [] 0
       (cl ++ thread_join
           :: (if dev =? 0 then [] else [SDL_CloseAudioDevice dev])).
Proof. unfold close. rewrite stopPlayback_started. reflexivity. Qed.

Lemma close_not_started fc asi dev dcd pp ss q ct ab bp cl :
  close (mk fc asi dev dcd false pp ss q ct ab bp cl)
  = mk None (-1) dev dcd false pp ss q 0%Q ab bp cl.
Proof. reflexivity. Qed.

(** X4: after [close()] the decoder has no file, is not playing and reads
    time 0; closing again changes nothing, and a seek on the closed
    decoder fails without touching it. *)
Theorem close_closes (d : t) :
  isFileOpen (close d) = false
  /\ isPlaying (close d) = false
  /\ playbackStarted (close d) = false
  /\ audioStreamIndex (close d) = -1
  /\ getCurrentTime (close d) = 0%Q
  /\ close (close d) = close d
  /\ forall seconds, seekToTime seconds (close d) = (false, close d).
Proof.
  destruct d as [fc asi dev dcd ps pp ss q ct ab bp cl].
  destruct ps.
  - rewrite close_started, close_not_started.
    unfold isPlaying, isFileOpen, seekToTime, getCurrentTime. fields.
    repeat split; reflexivity.
  - rewrite !close_not_started.
    unfold isPlaying, isFileOpen, seekToTime, getCurrentTime. fields.
    repeat split; reflexivity.
Qed.

(** X5: [openFile] first closes whatever was open.  It succeeds exactly
    when FFmpeg opens the input, finds the stream information and an audio
    stream, and the decoder and the resampler initialise; the decoder then
    holds that demuxer and stream index.  On every failure no file is left
    open.  Either way playback is not started and the clock reads 0. *)
Theorem openFile_outcome (sc : OpenScript) (d : t) :
  let r := openFile sc d in
  (fst r = true <->
   (exists ctx, open_input sc = Some ctx)
   /\ 0 <= find_stream_info_ret sc
   /\ 0 <= best_stream sc
   /\ initializeDecoder sc = true
   /\ setupResampler sc = true)
  /\ (fst r = true ->
      formatContext (snd r) = open_input sc
      /\ audioStreamIndex (snd r) = best_stream sc)
  /\ (fst r = false -> isFileOpen (snd r) = false)
  /\ playbackStarted (snd r) = false
  /\ isPlaying (snd r) = false
  /\ getCurrentTime (snd r) = 0%Q.
Proof.
  destruct d as [fc asi dev dcd ps pp ss q ct ab bp cl].
  unfold openFile.
  assert (Hclose : exists dev' dcd' pp' ss' q' ab' bp' cl',
             close (mk fc asi dev dcd ps pp ss q ct ab bp cl)
             = mk None (-1) dev' dcd' false pp' ss' q' 0%Q ab' bp' cl').
  { destruct ps; [rewrite close_started|rewrite close_not_started];
      repeat eexists. }
  destruct Hclose as (dev' & dcd' & pp' & ss' & q' & ab' & bp' & cl' & ->).
  unfold isPlaying, isFileOpen, getCurrentTime.
  destruct (open_input sc) as [ctx|].
  - fields.
    destruct (Z.ltb_spec (find_stream_info_ret sc) 0) as [Hinfo|Hinfo].
    + fields. repeat split; try reflexivity; try discriminate.
      intros (_ & H & _). lia.
    + destruct (Z.ltb_spec (best_stream sc) 0) as [Hbest|Hbest].
      * fields. repeat split; try reflexivity; try discriminate.
        intros (_ & _ & H & _). lia.
      * destruct (initializeDecoder sc) eqn:Hdec; cbn [negb].
        -- destruct (setupResampler sc) eqn:Hswr; cbn [negb].
           ++ fields. repeat split; try reflexivity; try discriminate; eauto.
           ++ rewrite close_not_started. fields.
              repeat split; try reflexivity; try discriminate.
              intros (_ & _ & _ & _ & H). discriminate.
        -- rewrite close_not_started. fields.
           repeat split; try reflexivity; try discriminate.
           intros (_ & _ & _ & H & _). discriminate.
  - fields. repeat split; try reflexivity; try discriminate.
    intros ((ctx & H) & _). discriminate.
Qed.

End TransportFacts.

(** ** The callback among the other calls *)

Section CallbackComposition.

Import AudioDecoder.

Lemma same_control_refl (d : t) : same_control d d.
Proof. unfold same_control. repeat split; reflexivity. Qed.

Lemma same_control_trans (d1 d2 d3 : t) :
  same_control d1 d2 -> same_control d2 d3 -> same_control d1 d3.
Proof.
  unfold same_control.
  intros (A1 & A2 & A3 & A4 & A5 & A6 & A7 & A8)
         (B1 & B2 & B3 & B4 & B5 & B6 & B7 & B8).
  repeat split; congruence.
Qed.

Lemma fill_body_frame (s s' : FillState) :
  fill_body s = Some s' ->
  same_control (fs_dec s) (fs_dec s')
  /\ exists taken,
       audioFrameQueue (fs_dec s) = taken ++ audioFrameQueue (fs_dec s').
Proof.
  destruct s as [d stream needed pos].
  destruct d as [fc asi dev dcd ps pp ss q ct ab bp cl].
  unfold fill_body, refill, buffer_size, same_control. cbn.
  destruct (bp >=? Z.of_nat (length ab)).
  - destruct q as [|f rest]; [discriminate|].
    intros H. inversion H; subst; clear H. cbn.
    split; [repeat split; reflexivity|]. exists [f]. reflexivity.
  - intros H. inversion H; subst; clear H. cbn.
    split; [repeat split; reflexivity|]. exists []. reflexivity.
Qed.

Lemma fill_loop_frame (fuel : nat) :
  forall s s',
    fill_loop fuel s = Some s' ->
    same_control (fs_dec s) (fs_dec s')
    /\ exists taken,
         audioFrameQueue (fs_dec s) = taken ++ audioFrameQueue (fs_dec s').
Proof.
  induction fuel as [|fuel IH]; intros s s'; cbn [fill_loop].
  - destruct (bytesNeeded s >? 0); [discriminate|].
    intros H. inversion H; subst.
    split; [apply same_control_refl|]. exists []. reflexivity.
  - destruct (bytesNeeded s >? 0).
    + destruct (fill_body s) as [s1|] eqn:Hbody.
      * intros Hrun.
        destruct (fill_body_frame _ _ Hbody) as (Hc1 & t1 & Hq1).
        destruct (IH _ _ Hrun) as (Hc2 & t2 & Hq2).
        split; [eapply same_control_trans; eassumption|].
        exists (t1 ++ t2). rewrite Hq1, Hq2. now rewrite app_assoc.
      * intros H. inversion H; subst.
        split; [apply same_control_refl|]. exists []. reflexivity.
    + intros H. inversion H; subst.
      split; [apply same_control_refl|]. exists []. reflexivity.
Qed.

Lemma fillAudioBuffer_frame
      (stream : list byte) (len : Z) (d : t) (out : list byte) (d' : t) :
  fillAudioBuffer stream len d = Some (out, d') ->
  same_control d d'
  /\ exists taken, audioFrameQueue d = taken ++ audioFrameQueue d'.
Proof.
  unfold fillAudioBuffer.
  destruct (playbackPaused d).
  - intros H. inversion H; subst.
    split; [apply same_control_refl|]. exists []. reflexivity.
  - destruct (fill_loop _ _) as [s'|] eqn:Hrun; [|discriminate].
    intros H. inversion H; subst.
    exact (fill_loop_frame _ (mkFill d _ _ _) _ Hrun).
Qed.

(** X6: the callback only consumes.  Whatever it returns, the file, the
    device id, the transport flags and the call log are as before, and the
    queue afterwards is what is left of the queue before once the blocks
    taken from its head are removed: it never queues, reorders or drops a
    block in the middle. *)
Theorem fillAudioBuffer_only_consumes
        (stream : list byte) (len : Z) (d : t) (out : list byte) (d' : t) :
  fillAudioBuffer stream len d = Some (out, d') ->
  same_control d d'
  /\ exists taken, audioFrameQueue d = taken ++ audioFrameQueue d'.
Proof.
  exact (fillAudioBuffer_frame stream len d out d').
Qed.

(** What the callback does when playback is not paused. *)
Lemma fillAudioBuffer_playing (stream : list byte) (len : Z) (d : t) :
  0 <= len ->
  length stream = Z.to_nat len ->
  sizes_fit d ->
  playbackPaused d = false ->
  exists out d',
    fillAudioBuffer stream len d = Some (out, d')
    /\ out = firstn (Z.to_nat len) (remaining d)
             ++ repeat silence (Z.to_nat len - length (remaining d))
    /\ remaining d' = skipn (Z.to_nat len) (remaining d)
    /\ sizes_fit d'
    /\ playbackPaused d' = false.
Proof.
  intros Hlen Hstream Hfit Hpaused.
  assert (Hzero : memset0 stream len = repeat silence (Z.to_nat len)).
  { unfold memset0. rewrite skipn_all2 by lia. apply app_nil_r. }
  unfold fillAudioBuffer. rewrite Hzero, Hpaused.
  destruct (fill_loop_spec (fill_fuel len d)
              (mkFill d (repeat silence (Z.to_nat len)) len 0))
    as (s' & Hrun & Hout & Hrest & Hfit');
    cbn [bytesNeeded streamPos fs_dec fs_stream];
    try lia; try assumption.
  - rewrite repeat_length. reflexivity.
  - unfold fill_fuel. lia.
  - cbn [bytesNeeded streamPos fs_dec fs_stream] in Hout, Hrest.
    rewrite Hrun.
    change (Z.to_nat 0) with O in Hout. cbn [firstn app Nat.add] in Hout.
    rewrite skipn_repeat_sub in Hout.
    replace (Z.to_nat len
             - Nat.min (Z.to_nat len) (length (remaining d)))%nat
      with (Z.to_nat len - length (remaining d))%nat in Hout by lia.
    exists (fs_stream s'), (fs_dec s').
    split; [reflexivity|]. split; [exact Hout|]. split; [exact Hrest|].
    split; [exact Hfit'|].
    destruct (fill_loop_frame _ _ _ Hrun) as ((_ & _ & _ & _ & _ & Hp & _) & _).
    cbn [fs_dec] in Hp. congruence.
Qed.

(** Two buffers played one after the other hold what one buffer of their
    joint length would. *)
Lemma play_in_two (x : byte) (rest : list byte) (a b : nat) :
  (firstn a rest ++ repeat x (a - length rest))
  ++ firstn b (skipn a rest) ++ repeat x (b - length (skipn a rest))
  = firstn (a + b) rest ++ repeat x (a + b - length rest).
Proof.
  rewrite length_skipn.
  destruct (Nat.le_gt_cases a (length rest)) as [Hle|Hgt].
  - replace (a - length rest)%nat with O by lia. cbn [repeat].
    rewrite app_nil_r, app_assoc.
    replace b with (a + b - a)%nat at 1 by lia.
    rewrite firstn_in_two by lia.
    f_equal. f_equal. lia.
  - rewrite (firstn_all2 rest) by lia.
    rewrite (skipn_all2 rest) by lia.
    rewrite firstn_nil. cbn [app length].
    rewrite (firstn_all2 rest) by lia.
    rewrite <- app_assoc, <- repeat_app. f_equal. f_equal. lia.
Qed.

(** X7: while playing, two callbacks in a row put out, one buffer after
    the other, exactly the bytes that a single callback for the joint
    length puts out, and leave the same bytes still to play: how the
    device cuts its requests does not change what is heard. *)
Theorem callbacks_compose
        (stream1 stream2 stream12 : list byte) (a b : Z) (d : t) :
  0 <= a ->
  0 <= b ->
  length stream1 = Z.to_nat a ->
  length stream2 = Z.to_nat b ->
  length stream12 = Z.to_nat (a + b) ->
  sizes_fit d ->
  playbackPaused d = false ->
  exists out1 d1 out2 d2 out d12,
    fillAudioBuffer stream1 a d = Some (out1, d1)
    /\ fillAudioBuffer stream2 b d1 = Some (out2, d2)
    /\ fillAudioBuffer stream12 (a + b) d = Some (out, d12)
    /\ out = out1 ++ out2
    /\ remaining d12 = remaining d2.
Proof.
  intros Ha Hb H1 H2 H12 Hfit Hpaused.
  destruct (fillAudioBuffer_playing stream1 a d Ha H1 Hfit Hpaused)
    as (out1 & d1 & Hrun1 & Hout1 & Hrem1 & Hfit1 & Hp1).
  destruct (fillAudioBuffer_playing stream2 b d1 Hb H2 Hfit1 Hp1)
    as (out2 & d2 & Hrun2 & Hout2 & Hrem2 & _).
  destruct (fillAudioBuffer_playing stream12 (a + b) d ltac:(lia) H12
              Hfit Hpaused)
    as (out & d12 & Hrun & Hout & Hrem & _).
  exists out1, d1, out2, d2, out, d12.
  split; [exact Hrun1|]. split; [exact Hrun2|]. split; [exact Hrun|]. split.
  - rewrite Hout, Hout1, Hout2, Hrem1.
    rewrite Z2Nat.inj_add by lia. symmetry. apply play_in_two.
  - rewrite Hrem, Hrem2, Hrem1, skipn_skipn.
    f_equal. rewrite Z2Nat.inj_add by lia. lia.
Qed.

Lemma remaining_push (f : AudioFrame) (d : t) :
  remaining (push f d) = remaining d ++ data f.
Proof.
  destruct d as [fc asi dev dcd ps pp ss q ct ab bp cl].
  unfold remaining, push. cbn.
  rewrite map_app, concat_app. cbn. now rewrite app_nil_r, app_assoc.
Qed.

Lemma push_all_spec (blocks : list AudioFrame) :
  forall d : t,
    sizes_fit d ->
    Forall (fun f => Z.of_nat (length (data f)) <= INT_MAX) blocks ->
    remaining (push_all blocks d)
    = remaining d ++ concat (map data blocks)
    /\ sizes_fit (push_all blocks d)
    /\ playbackPaused (push_all blocks d) = playbackPaused d.
Proof.
  induction blocks as [|f blocks IH]; intros d Hfit Hall.
  - cbn. rewrite app_nil_r. auto.
  - inversion Hall as [|x l Hf Hrest]; subst.
    assert (Hfit1 : sizes_fit (push f d)).
    { destruct d as [fc asi dev dcd ps pp ss q ct ab bp cl].
      unfold sizes_fit, push, buffer_size in *. cbn in *.
      destruct Hfit as (H1 & H2 & H3). repeat split; auto.
      apply Forall_app. split; [exact H3|]. constructor; [exact Hf|constructor]. }
    destruct (IH (push f d) Hfit1 Hrest) as (Hrem & Hfit' & Hp).
    change (push_all (f :: blocks) d) with (push_all blocks (push f d)).
    rewrite Hrem, remaining_push, Hp. cbn [map concat].
    rewrite <- app_assoc. split; [reflexivity|]. split; [exact Hfit'|].
    destruct d; reflexivity.
Qed.

(** X8: blocks are heard in the order they were pushed.  After any blocks
    are pushed, the callback puts out first what was still to play, then
    the bytes of the pushed blocks in push order, as far as the buffer
    goes, and silence after them. *)
Theorem blocks_play_in_push_order
        (stream : list byte) (len : Z) (blocks : list AudioFrame) (d : t) :
  0 <= len ->
  length stream = Z.to_nat len ->
  sizes_fit d ->
  playbackPaused d = false ->
  Forall (fun f => Z.of_nat (length (data f)) <= INT_MAX) blocks ->
  exists out d',
    fillAudioBuffer stream len (push_all blocks d) = Some (out, d')
    /\ out
       = firstn (Z.to_nat len) (remaining d ++ concat (map data blocks))
         ++ repeat silence
              (Z.to_nat len
               - length (remaining d ++ concat (map data blocks)))
    /\ remaining d'
       = skipn (Z.to_nat len) (remaining d ++ concat (map data blocks)).
Proof.
  intros Hlen Hstream Hfit Hpaused Hall.
  destruct (push_all_spec blocks d Hfit Hall) as (Hrem & Hfit' & Hp).
  destruct (fillAudioBuffer_playing stream len (push_all blocks d) Hlen
              Hstream Hfit' ltac:(congruence))
    as (out & d' & Hrun & Hout & Hrest & _).
  exists out, d'. rewrite <- Hrem. auto.
Qed.

(** With nothing queued and no current block the callback puts out
    silence and leaves the decoder as it is. *)
Lemma fillAudioBuffer_nothing_to_play (stream : list byte) (len : Z) (d : t) :
  0 <= len ->
  audioFrameQueue d = [] ->
  audioBuffer d = [] ->
  bufferPosition d = 0 ->
  fillAudioBuffer stream len d = Some (memset0 stream len, d).
Proof.
  destruct d as [fc asi dev dcd ps pp ss q ct ab bp cl].
  cbn [audioFrameQueue audioBuffer bufferPosition].
  intros Hlen -> -> ->.
  unfold fillAudioBuffer, fill_fuel. cbn [playbackPaused audioFrameQueue].
  destruct pp; [reflexivity|].
  cbn [length]. rewrite Nat.add_0_r.
  destruct (Z.to_nat len) as [|k] eqn:Hk.
  - assert (len = 0) by lia. subst len. reflexivity.
  - cbn [fill_loop bytesNeeded].
    destruct (Z.gtb_spec len 0) as [_|Hle]; [|lia].
    reflexivity.
Qed.

Lemma seekToTime_true_flushes (seconds : Q) (d d' : t) :
  seekToTime seconds d = (true, d') ->
  audioFrameQueue d' = [] /\ audioBuffer d' = [] /\ bufferPosition d' = 0
  /\ currentTime d' = seconds.
Proof.
  destruct d as [fc asi dev dcd ps pp ss q ct ab bp cl].
  unfold seekToTime, av_seek_frame, isPlaying, pausePlayback, resumePlayback.
  cbn [formatContext playbackStarted playbackPaused audioDevice].
  generalize (to_int64 (binary64_mul (to_double seconds)
                                     (int_to_double AV_TIME_BASE))).
  intros ts.
  destruct fc as [ctx|]; [|discriminate].
  destruct (seek_table ctx ts) as [l|];
    destruct ps, pp; cbn; intros H; inversion H; auto.
Qed.

End CallbackComposition.

(** ** The decoding thread: stopping and producing *)

Section WorkerExtras.

Import AudioDecoder.

Variable bufsize : Z -> Z.
Variable time_base : Q.







Lemma set_queue_twice (q1 q2 : list AudioFrame) (d : t) :
  set_audioFrameQueue q2 (set_audioFrameQueue q1 d)
  = set_audioFrameQueue q2 d.
Proof. destruct d; reflexivity. Qed.

Lemma set_queue_same (d : t) :
  set_audioFrameQueue (audioFrameQueue d) d = d.
Proof. destruct d; reflexivity. Qed.

Lemma queue_of_set (q : list AudioFrame) (d : t) :
  audioFrameQueue (set_audioFrameQueue q d) = q.
Proof. destruct d; reflexivity. Qed.

(** The receive loop queues the blocks of the packet, in order. *)
Lemma receive_loop_blocks (frames : list AVFrame) :
  forall d d' : t,
    receive_loop bufsize time_base frames d = Returned d' ->
    d' = set_audioFrameQueue
           (audioFrameQueue d ++ blocks_of bufsize time_base frames) d.
Proof.
  induction frames as [|frame rest IH]; intros d d'.
  - cbn. intros H. inversion H; subst.
    now rewrite app_nil_r, set_queue_same.
  - cbn [receive_loop blocks_of]. unfold receive_one, bind.
    destruct (convertAudioFrame bufsize time_base frame fresh_frame)
      as [[ok block]|]; [|discriminate].
    destruct ok; cbn [fst snd].
    + intros H. apply IH in H. rewrite H, queue_of_set, set_queue_twice.
      now rewrite <- app_assoc.
    + intros H. apply IH in H. exact H.
Qed.

(** X11: each call of [decodeNextFrame] that returns takes exactly one
    answer off the demuxer (none at the end of the file) and appends to
    the tail of the queue the blocks that answer leads to, in frame order:
    nothing for a read error, for a packet of another stream or for a
    packet the codec refuses.  It answers [false] exactly for the end of
    file, a read error and a refused packet.  Blocks already queued, the
    current block, the clock, the transport flags and the call log are
    not touched. *)
Theorem decodeNextFrame_appends (d : t) (ok : bool) (d' : t) :
  decodeNextFrame bufsize time_base d = Returned (ok, d') ->
  exists ctx ctx',
    formatContext d = Some ctx
    /\ formatContext d' = Some ctx'
    /\ pending ctx' = tl (pending ctx)
    /\ seek_table ctx' = seek_table ctx
    /\ audioFrameQueue d'
       = audioFrameQueue d
         ++ match pending ctx with
            | [] => []
            | r :: _ => produced bufsize time_base (audioStreamIndex d) r
            end
    /\ ok = match pending ctx with
            | ReadPacket p :: _ =>
                negb ((stream_index p =? audioStreamIndex d)
                      && (send_packet_ret p <? 0))
            | _ => false
            end
    /\ currentTime d' = currentTime d
    /\ audioBuffer d' = audioBuffer d
    /\ bufferPosition d' = bufferPosition d
    /\ audioStreamIndex d' = audioStreamIndex d
    /\ audioDevice d' = audioDevice d
    /\ isDecoding d' = isDecoding d
    /\ playbackStarted d' = playbackStarted d
    /\ playbackPaused d' = playbackPaused d
    /\ shouldStop d' = shouldStop d
    /\ calls d' = calls d.
Proof.
  destruct d as [fc asi dev dcd ps pp ss q ct ab bp cl].
  unfold decodeNextFrame, read_and_send, av_read_frame, bind, produced.
  cbn [formatContext audioStreamIndex].
  destruct fc as [[pend seeks]|]; [|discriminate].
  cbn [pending seek_table].
  destruct pend as [|[p|] rest]; cbn [pending seek_table];
    cbn [set_formatContext formatContext audioStreamIndex audioDevice
         isDecoding playbackStarted playbackPaused shouldStop
         audioFrameQueue currentTime audioBuffer bufferPosition calls].
  - intros H. inversion H; subst; clear H.
    eexists; eexists. split; [reflexivity|]. split; [reflexivity|].
    cbn. rewrite app_nil_r. repeat split; reflexivity.
  - destruct (stream_index p =? asi) eqn:Hidx; cbn [negb andb].
    + destruct (send_packet_ret p <? 0) eqn:Hsend; cbn [negb].
      * intros H. inversion H; subst; clear H.
        eexists; eexists. split; [reflexivity|]. split; [reflexivity|].
        cbn. rewrite Hidx, Hsend. cbn. rewrite app_nil_r.
        repeat split; reflexivity.
      * destruct (receive_loop bufsize time_base (receive_frames p) _)
          as [d1|] eqn:Hloop; [|discriminate].
        intros H. inversion H; subst; clear H.
        apply receive_loop_blocks in Hloop. subst d'.
        eexists; eexists. split; [reflexivity|]. split; [reflexivity|].
        cbn. rewrite Hidx, Hsend. cbn. repeat split; reflexivity.
    + intros H. inversion H; subst; clear H.
      eexists; eexists. split; [reflexivity|]. split; [reflexivity|].
      cbn. rewrite Hidx. cbn. rewrite app_nil_r. repeat split; reflexivity.
  - intros H. inversion H; subst; clear H.
    eexists; eexists. split; [reflexivity|]. split; [reflexivity|].
    cbn. rewrite app_nil_r. repeat split; reflexivity.
Qed.

Lemma vector_resize_length (n : Z) (v v' : list byte) :
  vector_resize n v = Returned v' ->
  0 <= n /\ Z.of_nat (length v') = n.
Proof.
  unfold vector_resize.
  destruct (Z.ltb_spec n 0) as [Hneg|Hpos]; [discriminate|].
  intros Hv. inversion Hv; subst.
  rewrite length_app, length_firstn, repeat_length. lia.
Qed.

(** X12: when [convertAudioFrame] answers [true], the block it hands out
    has exactly the size that [av_samples_get_buffer_size] gives for the
    converted sample count, the frame's [pts] and that [pts] scaled by
    the stream time base as timestamp.  It aborts, instead of answering,
    exactly when it is about to resize the block to a negative size: the
    size for the expected sample count, or, after a conversion without
    error, the size for the converted count. *)
Theorem convertAudioFrame_outcome (frame : AVFrame) (af : AudioFrame) :
  (forall block,
      convertAudioFrame bufsize time_base frame af = Returned (true, block) ->
      0 < swr_out_samples frame
      /\ 0 <= swr_converted frame
      /\ Z.of_nat (length (data block)) = bufsize (swr_converted frame)
      /\ pts block = frame_pts frame
      /\ timestamp block = (inject_Z (frame_pts frame) * time_base)%Q)
  /\ (convertAudioFrame bufsize time_base frame af = Aborted <->
      0 < swr_out_samples frame
      /\ (bufsize (swr_out_samples frame) < 0
          \/ (0 <= swr_converted frame
              /\ bufsize (swr_converted frame) < 0))).
Proof.
  unfold convertAudioFrame, bind.
  destruct (Z.leb_spec (swr_out_samples frame) 0) as [Hout|Hout].
  - split; [discriminate|]. split; [discriminate|]. intros (H & _). lia.
  - destruct (vector_resize (bufsize (swr_out_samples frame)) (data af))
      as [buf|] eqn:Hbuf.
    + apply vector_resize_length in Hbuf. destruct Hbuf as [Hsize _].
      destruct (Z.ltb_spec (swr_converted frame) 0) as [Hconv|Hconv].
      * split; [discriminate|]. split; [discriminate|].
        intros (_ & [H|[H _]]); lia.
      * destruct (vector_resize (bufsize (swr_converted frame)) _)
          as [buf2|] eqn:Hbuf2.
        -- apply vector_resize_length in Hbuf2.
           split.
           ++ intros block H. inversion H; subst. cbn.
              repeat split; try reflexivity; lia.
           ++ split; [discriminate|]. intros (_ & [H|[_ H]]); lia.
        -- split; [discriminate|]. split; [|reflexivity].
           intros _. split; [lia|]. right. split; [lia|].
           unfold vector_resize in Hbuf2.
           destruct (Z.ltb_spec (bufsize (swr_converted frame)) 0);
             [lia|discriminate].
    + split; [discriminate|]. split; [|reflexivity].
      intros _. split; [lia|]. left.
      unfold vector_resize in Hbuf.
      destruct (Z.ltb_spec (bufsize (swr_out_samples frame)) 0);
        [lia|discriminate].
Qed.

End WorkerExtras.

(** ** Sessions: what every sequence of calls keeps *)

Ltac decoder_fields :=
  cbv [AudioDecoder.set_formatContext AudioDecoder.set_audioStreamIndex
       AudioDecoder.set_audioDevice AudioDecoder.set_isDecoding
       AudioDecoder.set_playbackStarted AudioDecoder.set_playbackPaused
       AudioDecoder.set_shouldStop AudioDecoder.set_audioFrameQueue
       AudioDecoder.set_currentTime AudioDecoder.set_audioBuffer
       AudioDecoder.set_bufferPosition AudioDecoder.call
       AudioDecoder.clearQueue AudioDecoder.push
       AudioDecoder.formatContext AudioDecoder.audioStreamIndex
       AudioDecoder.audioDevice AudioDecoder.isDecoding
       AudioDecoder.playbackStarted AudioDecoder.playbackPaused
       AudioDecoder.shouldStop AudioDecoder.audioFrameQueue
       AudioDecoder.currentTime AudioDecoder.audioBuffer
       AudioDecoder.bufferPosition AudioDecoder.calls
       pending seek_table tl negb andb fst snd].

Section SessionFacts.

Import AudioDecoder.

Variable bufsize : Z -> Z.
Variable time_base : Q.

Lemma INT_MAX_nonneg : 0 <= INT_MAX.
Proof. vm_compute. discriminate. Qed.

(** [decodeNextFrame] as one update of the decoder. *)
Lemma decodeNextFrame_state (d : t) (ok : bool) (d' : t) :
  decodeNextFrame bufsize time_base d = Returned (ok, d') ->
  exists ctx,
    formatContext d = Some ctx
    /\ d' = set_formatContext
              (Some (mkAVFormatContext (tl (pending ctx)) (seek_table ctx)))
              (set_audioFrameQueue
                 (audioFrameQueue d
                  ++ match pending ctx with
                     | [] => []
                     | r :: _ =>
                         produced bufsize time_base (audioStreamIndex d) r
                     end) d).
Proof.
  destruct d as [fc asi dev dcd ps pp ss q ct ab bp cl].
  unfold decodeNextFrame, read_and_send, av_read_frame, bind, produced.
  cbn [formatContext audioStreamIndex].
  destruct fc as [[pend seeks]|]; [|discriminate].
  cbn [pending seek_table].
  destruct pend as [|[p|] rest]; cbn [pending seek_table];
    cbn [set_formatContext formatContext audioStreamIndex audioDevice
         isDecoding playbackStarted playbackPaused shouldStop
         audioFrameQueue currentTime audioBuffer bufferPosition calls].
  - intros H. inversion H; subst; clear H.
    eexists. split; [reflexivity|]. decoder_fields. now rewrite app_nil_r.
  - destruct (stream_index p =? asi) eqn:Hidx; cbn [negb andb].
    + destruct (send_packet_ret p <? 0) eqn:Hsend; cbn [negb].
      * intros H. inversion H; subst; clear H.
        eexists. split; [reflexivity|]. decoder_fields.
        rewrite Hidx, Hsend. now rewrite app_nil_r.
      * destruct (receive_loop bufsize time_base (receive_frames p) _)
          as [d1|] eqn:Hloop; [|discriminate].
        intros H. inversion H; subst; clear H.
        apply receive_loop_blocks in Hloop. subst d'.
        eexists. split; [reflexivity|]. decoder_fields.
        rewrite Hidx, Hsend. reflexivity.
    + intros H. inversion H; subst; clear H.
      eexists. split; [reflexivity|]. decoder_fields.
      rewrite Hidx. now rewrite app_nil_r.
  - intros H. inversion H; subst; clear H.
    eexists. split; [reflexivity|]. decoder_fields. now rewrite app_nil_r.
Qed.

Lemma blocks_of_fit (frames : list AVFrame) :
  (forall n, bufsize n <= INT_MAX) ->
  Forall (fun f => Z.of_nat (length (data f)) <= INT_MAX)
         (blocks_of bufsize time_base frames).
Proof.
  intros Hsize. induction frames as [|frame rest IH]; [constructor|].
  cbn [blocks_of].
  destruct (convertAudioFrame bufsize time_base frame fresh_frame)
    as [[ok block]|] eqn:Hconv; [|exact IH].
  destruct ok; [|exact IH].
  constructor; [|exact IH].
  unfold convertAudioFrame, bind in Hconv.
  destruct (swr_out_samples frame <=? 0); [discriminate|].
  destruct (vector_resize (bufsize (swr_out_samples frame)) _);
    [|discriminate].
  destruct (swr_converted frame <? 0); [discriminate|].
  destruct (vector_resize (bufsize (swr_converted frame)) _) as [buf|]
    eqn:Hbuf; [|discriminate].
  inversion Hconv; subst. cbn [data].
  apply vector_resize_length in Hbuf. destruct Hbuf as [_ ->].
  apply Hsize.
Qed.

Lemma produced_fit (asi : Z) (r : ReadResult) :
  (forall n, bufsize n <= INT_MAX) ->
  Forall (fun f => Z.of_nat (length (data f)) <= INT_MAX)
         (produced bufsize time_base asi r).
Proof.
  intros Hsize. destruct r as [p|]; cbn [produced]; [|constructor].
  destruct ((stream_index p =? asi) && negb (send_packet_ret p <? 0));
    [now apply blocks_of_fit|constructor].
Qed.

(** One turn of the callback loop keeps the position inside the block. *)
Lemma fill_body_keeps (s s' : FillState) :
  0 < bytesNeeded s ->
  0 <= streamPos s ->
  sizes_fit (fs_dec s) ->
  fill_body s = Some s' ->
  sizes_fit (fs_dec s')
  /\ bufferPosition (fs_dec s') <= buffer_size (fs_dec s')
  /\ 0 <= streamPos s'.
Proof.
  destruct s as [d stream needed pos].
  cbn [bytesNeeded streamPos fs_dec fs_stream].
  intros Hneeded Hpos Hfit. unfold fill_body. cbn [fs_dec].
  pose proof (refill_spec d Hfit) as Hre.
  destruct (refill d) as [d1|]; [|discriminate].
  destruct Hre as (_ & Hfit1 & Hle & _).
  destruct d1 as [fc asi dev dcd ps pp ss q ct ab bp cl].
  unfold sizes_fit, buffer_size in *.
  cbn [bufferPosition audioBuffer audioFrameQueue set_bufferPosition
       bytesNeeded streamPos fs_dec fs_stream] in *.
  destruct Hfit1 as (Hbp & Hab & Hq).
  rewrite to_int_small by lia.
  intros H. inversion H; subst; clear H.
  cbn [bufferPosition audioBuffer audioFrameQueue set_bufferPosition
       bytesNeeded streamPos fs_dec fs_stream].
  repeat split; auto; lia.
Qed.

Lemma fill_loop_keeps (fuel : nat) :
  forall s s',
    0 <= streamPos s ->
    sizes_fit (fs_dec s) ->
    bufferPosition (fs_dec s) <= buffer_size (fs_dec s) ->
    fill_loop fuel s = Some s' ->
    sizes_fit (fs_dec s')
    /\ bufferPosition (fs_dec s') <= buffer_size (fs_dec s').
Proof.
  induction fuel as [|fuel IH]; intros s s' Hpos Hfit Hle; cbn [fill_loop].
  - destruct (bytesNeeded s >? 0); [discriminate|].
    intros H. inversion H; subst. auto.
  - destruct (Z.gtb_spec (bytesNeeded s) 0) as [Hgt|Hngt].
    + destruct (fill_body s) as [s1|] eqn:Hbody.
      * intros Hrun.
        destruct (fill_body_keeps _ _ Hgt Hpos Hfit Hbody)
          as (Hfit1 & Hle1 & Hpos1).
        exact (IH _ _ Hpos1 Hfit1 Hle1 Hrun).
      * intros H. inversion H; subst. auto.
    + intros H. inversion H; subst. auto.
Qed.

Lemma coherent_callback stream len (d : t) out d' :
  coherent d ->
  fillAudioBuffer stream len d = Some (out, d') ->
  coherent d'.
Proof.
  intros (Hfit & Hle & Hpause & Hdev) Hrun.
  destruct (fillAudioBuffer_frame stream len d out d' Hrun)
    as ((_ & _ & Hd & _ & Hs & Hp & _) & _).
  assert (Hkeep : sizes_fit d'
                  /\ bufferPosition d' <= buffer_size d').
  { unfold fillAudioBuffer in Hrun.
    destruct (playbackPaused d) eqn:Hpp.
    - inversion Hrun; subst. auto.
    - destruct (fill_loop _ _) as [s'|] eqn:Hloop; [|discriminate].
      inversion Hrun; subst.
      apply (fill_loop_keeps (fill_fuel len d)
               (mkFill d (memset0 stream len) len 0) s');
        cbn [streamPos fs_dec]; auto; lia. }
  unfold coherent. rewrite Hd, Hs, Hp.
  destruct Hkeep. auto.
Qed.

Lemma coherent_empty fc asi dev dcd ps pp ss ct cl :
  (pp = true -> ps = true) ->
  (ps = true <-> dev <> 0) ->
  coherent (mk fc asi dev dcd ps pp ss [] ct [] 0 cl).
Proof.
  intros H1 H2. unfold coherent, sizes_fit, buffer_size. cbn.
  pose proof INT_MAX_nonneg.
  repeat split; auto; try lia; apply H2.
Qed.

Lemma coherent_untouched (fc fc' : option AVFormatContext) (asi asi' : Z)
      (dcd dcd' ss ss' : bool) (ct ct' : Q) (cl cl' : list LibCall)
      dev ps pp q ab bp :
  coherent (mk fc asi dev dcd ps pp ss q ct ab bp cl) ->
  coherent (mk fc' asi' dev dcd' ps pp ss' q ct' ab bp cl').
Proof. exact (fun H => H). Qed.

Lemma coherent_decode (d : t) (ok : bool) (d' : t) :
  (forall n, bufsize n <= INT_MAX) ->
  coherent d ->
  decodeNextFrame bufsize time_base d = Returned (ok, d') ->
  coherent d'.
Proof.
  intros Hsize Hco Hrun.
  destruct (decodeNextFrame_state d ok d' Hrun) as (ctx & Hctx & ->).
  clear Hrun Hctx.
  destruct d as [fc asi dev dcd ps pp ss q ct ab bp cl].
  destruct ctx as [pend st].
  decoder_fields.
  unfold coherent, sizes_fit, buffer_size in *.
  cbn [bufferPosition audioBuffer audioFrameQueue playbackStarted
       playbackPaused audioDevice] in *.
  destruct Hco as ((H1 & H2 & H3) & H4 & H5 & H6).
  repeat split; auto; try apply H6.
  apply Forall_app. split; [exact H3|].
  destruct pend as [|r rest]; [constructor|].
  now apply produced_fit.
Qed.

Lemma coherent_stop (d : t) : coherent d -> coherent (stopPlayback d).
Proof.
  destruct d as [fc asi dev dcd ps pp ss q ct ab bp cl].
  destruct ps.
  - rewrite stopPlayback_started. intros _.
    apply coherent_empty; [discriminate|].
    split; [discriminate|]. intros H. now contradiction H.
  - rewrite stopPlayback_not_started. exact (fun H => H).
Qed.

Lemma coherent_close (d : t) : coherent d -> coherent (close d).
Proof.
  destruct d as [fc asi dev dcd ps pp ss q ct ab bp cl].
  destruct ps.
  - rewrite close_started. intros _.
    apply coherent_empty; [discriminate|].
    split; [discriminate|]. intros H. now contradiction H.
  - rewrite close_not_started. apply coherent_untouched.
Qed.

Lemma coherent_start (dev : Z) (d : t) :
  coherent d -> coherent (snd (startPlayback dev d)).
Proof.
  destruct d as [fc asi dv dcd ps pp ss q ct ab bp cl].
  unfold startPlayback. cbn [playbackStarted].
  destruct ps; [exact (fun H => H)|].
  decoder_fields.
  destruct (Z.eqb_spec dev 0) as [->|Hdev]; decoder_fields.
  - unfold coherent, sizes_fit, buffer_size. cbn.
    intros ((H1 & H2 & H3) & H4 & H5 & H6).
    repeat split; auto; try discriminate;
      try (intros H; now contradiction H).
  - intros _. apply coherent_empty; [discriminate|]. split; auto.
Qed.

Lemma coherent_pause (d : t) : coherent d -> coherent (pausePlayback d).
Proof.
  destruct d as [fc asi dev dcd ps pp ss q ct ab bp cl].
  unfold pausePlayback. cbn [playbackStarted playbackPaused].
  destruct ps, pp; cbn [andb negb]; try exact (fun H => H).
  decoder_fields. unfold coherent, sizes_fit, buffer_size. cbn.
  intros ((H1 & H2 & H3) & H4 & H5 & H6). repeat split; auto; apply H6.
Qed.

Lemma coherent_resume (d : t) : coherent d -> coherent (resumePlayback d).
Proof.
  destruct d as [fc asi dev dcd ps pp ss q ct ab bp cl].
  unfold resumePlayback. cbn [playbackStarted playbackPaused].
  destruct ps, pp; cbn [andb negb]; try exact (fun H => H).
  decoder_fields. unfold coherent, sizes_fit, buffer_size. cbn.
  intros ((H1 & H2 & H3) & H4 & H5 & H6).
  repeat split; auto; apply H6.
Qed.

Lemma coherent_seek (seconds : Q) (d : t) :
  coherent d -> coherent (snd (seekToTime seconds d)).
Proof.
  destruct (seekToTime seconds d) as [ok d'] eqn:Hrun. cbn [snd].
  revert Hrun.
  destruct d as [fc asi dev dcd ps pp ss q ct ab bp cl].
  unfold seekToTime, av_seek_frame, isPlaying, pausePlayback, resumePlayback.
  cbn [formatContext playbackStarted playbackPaused audioDevice].
  generalize (to_int64 (binary64_mul (to_double seconds)
                                     (int_to_double AV_TIME_BASE))).
  intros ts.
  destruct fc as [ctx|]; [|intros H; inversion H; subst; exact (fun H => H)].
  pose proof INT_MAX_nonneg as Hmax.
  destruct (seek_table ctx ts) as [l|]; destruct ps, pp; cbn;
    intros H; inversion H; subst; clear H;
    unfold coherent, sizes_fit, buffer_size;
    cbn [playbackStarted playbackPaused audioDevice bufferPosition
         audioBuffer audioFrameQueue length Z.of_nat];
    intros ((H1 & H2 & H3) & Hle & Hp & Hdev);
    (split; [split; [|split]|split; [|split]]);
    auto; try lia; try discriminate; try apply Hdev.
Qed.

Lemma coherent_open (sc : OpenScript) (d : t) :
  coherent d -> coherent (snd (openFile sc d)).
Proof.
  intros Hco. apply coherent_close in Hco. unfold openFile.
  destruct (close d) as [fc asi dev dcd ps pp ss q ct ab bp cl].
  destruct (open_input sc) as [ctx|]; [|exact Hco].
  decoder_fields.
  destruct (find_stream_info_ret sc <? 0); [exact Hco|].
  destruct (best_stream sc <? 0); [exact Hco|].
  destruct (initializeDecoder sc); cbn [negb].
  - destruct (setupResampler sc); cbn [negb snd].
    + exact Hco.
    + apply coherent_close. exact Hco.
  - cbn [snd]. apply coherent_close. exact Hco.
Qed.

Lemma session_step_coherent (c : Command) (d : t) :
  (forall n, bufsize n <= INT_MAX) ->
  coherent d ->
  coherent (session_step bufsize time_base c d).
Proof.
  intros Hsize Hco. destruct c as [sc| |dev| | | |seconds|stream len|];
    cbn [session_step].
  - now apply coherent_open.
  - now apply coherent_close.
  - now apply coherent_start.
  - now apply coherent_stop.
  - now apply coherent_pause.
  - now apply coherent_resume.
  - now apply coherent_seek.
  - destruct (fillAudioBuffer stream len d) as [[out d']|] eqn:Hrun;
      [|exact Hco].
    exact (coherent_callback _ _ _ _ _ Hco Hrun).
  - destruct (decodeNextFrame bufsize time_base d) as [[ok d']|] eqn:Hrun;
      [|exact Hco].
    exact (coherent_decode _ _ _ Hsize Hco Hrun).
Qed.

(** X13: whatever calls are made, in whatever order, by the control
    thread, the device callback and the decoding thread, the decoder
    stays coherent: the read position lies within the current block (so
    the callback never copies from outside it), the current block and
    every queued block fit an [int], a paused decoder is a started one,
    and the audio device is open exactly while playback is started.
    This needs only that [av_samples_get_buffer_size] returns an [int]. *)
Theorem session_keeps_coherent (cs : list Command) (d : t) :
  (forall n, bufsize n <= INT_MAX) ->
  coherent d ->
  coherent (session bufsize time_base cs d).
Proof.
  intros Hsize. revert d. unfold session.
  induction cs as [|c cs IH]; intros d Hco; [exact Hco|].
  cbn [fold_left]. apply IH. now apply session_step_coherent.
Qed.

(** *** The clock while playback runs on *)

Lemma last_cons_default {A : Type} (l : list A) :
  forall x c : A, last (x :: l) c = last l x.
Proof.
  induction l as [|y l IH]; intros x c; [reflexivity|].
  change (last (x :: y :: l) c) with (last (y :: l) c).
  rewrite (IH y c). symmetry. apply IH.
Qed.

Lemma refill_last_time (d d1 : t) :
  refill d = Some d1 -> last_time d1 = last_time d.
Proof.
  destruct d as [fc asi dev dcd ps pp ss q ct ab bp cl].
  unfold refill, buffer_size.
  cbn [bufferPosition audioBuffer audioFrameQueue].
  destruct (bp >=? Z.of_nat (length ab)).
  - destruct q as [|f rest]; [discriminate|].
    intros H. inversion H; subst; clear H.
    unfold last_time. decoder_fields. cbn [map].
    symmetry. apply last_cons_default.
  - intros H. inversion H; subst. reflexivity.
Qed.

Lemma fill_body_last_time (s s' : FillState) :
  fill_body s = Some s' -> last_time (fs_dec s') = last_time (fs_dec s).
Proof.
  unfold fill_body.
  destruct (refill (fs_dec s)) as [d1|] eqn:Hre; [|discriminate].
  intros H. inversion H; subst; clear H.
  rewrite <- (refill_last_time _ _ Hre).
  destruct d1 as [fc asi dev dcd ps pp ss q ct ab bp cl]. reflexivity.
Qed.

Lemma fill_loop_last_time (fuel : nat) :
  forall s s',
    fill_loop fuel s = Some s' -> last_time (fs_dec s') = last_time (fs_dec s).
Proof.
  induction fuel as [|fuel IH]; intros s s'; cbn [fill_loop].
  - destruct (bytesNeeded s >? 0); [discriminate|].
    intros H. inversion H; subst. reflexivity.
  - destruct (bytesNeeded s >? 0).
    + destruct (fill_body s) as [s1|] eqn:Hbody.
      * intros Hrun. rewrite (IH _ _ Hrun). exact (fill_body_last_time _ _ Hbody).
      * intros H. inversion H; subst. reflexivity.
    + intros H. inversion H; subst. reflexivity.
Qed.

Lemma fillAudioBuffer_last_time stream len (d : t) out d' :
  fillAudioBuffer stream len d = Some (out, d') -> last_time d' = last_time d.
Proof.
  unfold fillAudioBuffer.
  destruct (playbackPaused d).
  - intros H. inversion H; subst. reflexivity.
  - destruct (fill_loop _ _) as [s'|] eqn:Hrun; [|discriminate].
    intros H. inversion H; subst.
    exact (fill_loop_last_time _ (mkFill d _ _ _) _ Hrun).
Qed.

Lemma pts_from_last (frames : list AVFrame) :
  forall p, pts_from p frames -> p <= last (map frame_pts frames) p.
Proof.
  induction frames as [|f rest IH]; intros p H; [cbn; lia|].
  destruct H as [H1 H2]. cbn [map]. rewrite last_cons_default.
  specialize (IH _ H2). lia.
Qed.

Lemma pts_from_app (a : list AVFrame) :
  forall p b,
    pts_from p (a ++ b) ->
    pts_from p a /\ pts_from (last (map frame_pts a) p) b.
Proof.
  induction a as [|f a IH]; intros p b H; cbn [app] in *.
  - cbn. auto.
  - destruct H as [H1 H2]. destruct (IH _ _ H2) as [H3 H4].
    cbn [pts_from map]. rewrite last_cons_default. auto.
Qed.

Lemma convert_timestamp (frame : AVFrame) (af block : AudioFrame) :
  convertAudioFrame bufsize time_base frame af = Returned (true, block) ->
  timestamp block = (inject_Z (frame_pts frame) * time_base)%Q.
Proof.
  unfold convertAudioFrame, bind.
  destruct (swr_out_samples frame <=? 0); [discriminate|].
  destruct (vector_resize _ _) as [buf|]; [|discriminate].
  destruct (swr_converted frame <? 0); [discriminate|].
  destruct (vector_resize _ _) as [buf2|]; [|discriminate].
  intros H. inversion H; subst. reflexivity.
Qed.

Lemma scale_le (p p' : Z) :
  (0 <= time_base)%Q -> p <= p' ->
  (inject_Z p * time_base <= inject_Z p' * time_base)%Q.
Proof.
  intros Htb Hp. apply Qmult_le_compat_r; [|exact Htb].
  rewrite <- Zle_Qle. exact Hp.
Qed.

Lemma blocks_of_ordered (frames : list AVFrame) :
  (0 <= time_base)%Q ->
  forall p q c,
    pts_from p frames ->
    ordered_from c q ->
    (last (map timestamp q) c <= inject_Z p * time_base)%Q ->
    ordered_from c (q ++ blocks_of bufsize time_base frames)
    /\ (last (map timestamp (q ++ blocks_of bufsize time_base frames)) c
        <= inject_Z (last (map frame_pts frames) p) * time_base)%Q.
Proof.
  intros Htb.
  induction frames as [|f rest IH]; intros p q c Hpts Hord Hlast.
  - cbn [blocks_of map last]. rewrite app_nil_r. auto.
  - destruct Hpts as [Hp Hrest]. cbn [blocks_of map].
    rewrite last_cons_default.
    pose proof (scale_le _ _ Htb Hp) as Hscale.
    assert (Hnext : (last (map timestamp q) c
                     <= inject_Z (frame_pts f) * time_base)%Q)
      by (eapply Qle_trans; eassumption).
    destruct (convertAudioFrame bufsize time_base f fresh_frame)
      as [[[|] block]|] eqn:Hconv.
    + apply convert_timestamp in Hconv.
      replace (q ++ block :: blocks_of bufsize time_base rest)
        with ((q ++ [block]) ++ blocks_of bufsize time_base rest)
        by (rewrite <- app_assoc; reflexivity).
      apply IH; [exact Hrest| |].
      * apply ordered_from_snoc; [exact Hord|]. rewrite Hconv. exact Hnext.
      * rewrite map_app. cbn [map]. rewrite last_last, Hconv.
        apply Qle_refl.
    + now apply IH.
    + now apply IH.
Qed.

Lemma decode_keeps_order (d : t) (ok : bool) (d' : t) (p : Z) :
  (0 <= time_base)%Q ->
  clock_ordered d ->
  (last_time d <= inject_Z p * time_base)%Q ->
  source_sorted p d ->
  decodeNextFrame bufsize time_base d = Returned (ok, d') ->
  currentTime d' = currentTime d
  /\ exists p',
       clock_ordered d'
       /\ (last_time d' <= inject_Z p' * time_base)%Q
       /\ source_sorted p' d'.
Proof.
  intros Htb Hord Hlast Hsrc Hrun.
  destruct (decodeNextFrame_state d ok d' Hrun) as (ctx & Hctx & ->).
  clear Hrun.
  destruct d as [fc asi dev dcd ps pp ss q ct ab bp cl].
  destruct ctx as [pend st].
  cbn [formatContext] in Hctx. subst fc.
  unfold clock_ordered, last_time, source_sorted in *.
  cbn [formatContext audioStreamIndex audioFrameQueue currentTime pending]
    in Hord, Hlast, Hsrc.
  decoder_fields.
  split; [reflexivity|].
  destruct pend as [|r rest].
  - rewrite app_nil_r. exists p. cbn [audio_frames pts_from]. auto.
  - destruct r as [pk|]; cbn [audio_frames produced] in *.
    + destruct (stream_index pk =? asi).
      * apply pts_from_app in Hsrc. destruct Hsrc as [Hf Hr].
        exists (last (map frame_pts (receive_frames pk)) p).
        destruct (send_packet_ret pk <? 0); cbn [andb negb].
        -- rewrite app_nil_r. split; [exact Hord|]. split; [|exact Hr].
           eapply Qle_trans; [exact Hlast|].
           apply scale_le; [exact Htb|]. now apply pts_from_last.
        -- destruct (blocks_of_ordered _ Htb p q ct Hf Hord Hlast) as [H1 H2].
           auto.
      * cbn [andb app] in *. rewrite app_nil_r. exists p. auto.
    + rewrite app_nil_r. exists p. auto.
Qed.

Lemma session_step_clock (c : Command) (d : t) (p : Z) :
  (0 <= time_base)%Q ->
  plays_on c ->
  clock_ordered d ->
  (last_time d <= inject_Z p * time_base)%Q ->
  source_sorted p d ->
  (currentTime d <= currentTime (session_step bufsize time_base c d))%Q
  /\ exists p',
       clock_ordered (session_step bufsize time_base c d)
       /\ (last_time (session_step bufsize time_base c d)
           <= inject_Z p' * time_base)%Q
       /\ source_sorted p' (session_step bufsize time_base c d).
Proof.
  intros Htb Hc Hord Hlast Hsrc.
  destruct c as [sc| |dev| | | |seconds|stream len|];
    cbn [plays_on] in Hc; try contradiction; cbn [session_step].
  - destruct d as [fc asi dev dcd ps pp ss q ct ab bp cl].
    unfold pausePlayback. cbn [playbackStarted playbackPaused].
    destruct (ps && negb pp);
      (split; [apply Qle_refl|exists p; auto]).
  - destruct d as [fc asi dev dcd ps pp ss q ct ab bp cl].
    unfold resumePlayback. cbn [playbackStarted playbackPaused].
    destruct (ps && pp);
      (split; [apply Qle_refl|exists p; auto]).
  - destruct (fillAudioBuffer stream len d) as [[out d']|] eqn:Hrun.
    + destruct (fillAudioBuffer_clock _ _ _ _ _ Hord Hrun) as [Hle Hord'].
      destruct (fillAudioBuffer_frame _ _ _ _ _ Hrun)
        as ((Hfc & Hasi & _) & _).
      split; [exact Hle|]. exists p.
      split; [exact Hord'|].
      rewrite (fillAudioBuffer_last_time _ _ _ _ _ Hrun).
      split; [exact Hlast|].
      unfold source_sorted. rewrite Hfc, Hasi. exact Hsrc.
    + split; [apply Qle_refl|]. exists p. auto.
  - destruct (decodeNextFrame bufsize time_base d) as [[ok d']|] eqn:Hrun.
    + destruct (decode_keeps_order _ _ _ _ Htb Hord Hlast Hsrc Hrun)
        as [Heq Hex].
      split; [rewrite Heq; apply Qle_refl|exact Hex].
    + split; [apply Qle_refl|]. exists p. auto.
Qed.

(** X14: while playback runs on (decoding, callbacks, pause and resume in
    any order, but no seek, stop, start, open or close), the clock never
    steps back, provided the time base is not negative, the queue is in
    time order from the clock on, and the demuxer delivers the audio
    frames in non-decreasing [pts] order, none before the newest block
    queued.  Frames that fail to convert and packets that are refused or
    belong to other streams do not disturb this. *)
Theorem clock_monotone_when_source_sorted
        (cs : list Command) (d : t) (p0 : Z) :
  (0 <= time_base)%Q ->
  clock_ordered d ->
  (last_time d <= inject_Z p0 * time_base)%Q ->
  source_sorted p0 d ->
  Forall plays_on cs ->
  nondecreasing_from (currentTime d) (session_trace bufsize time_base cs d).
Proof.
  intros Htb. revert d p0.
  induction cs as [|c cs IH]; intros d p0 Hord Hlast Hsrc Hcs;
    [exact I|].
  inversion Hcs as [|c' cs' Hc Hrest]; subst.
  cbn [session_trace nondecreasing_from].
  destruct (session_step_clock c d p0 Htb Hc Hord Hlast Hsrc)
    as (Hle & p' & Hord' & Hlast' & Hsrc').
  split; [exact Hle|].
  exact (IH _ p' Hord' Hlast' Hsrc' Hrest).
Qed.

End SessionFacts.

(** ** A seek while the decoding thread runs *)

Section SeekAndDecodingThread.

Import AudioDecoder.

Variable bufsize : Z -> Z.
Variable time_base : Q.

Lemma seekToTime_true_paused (seconds : Q) (d d' : t) :
  seekToTime seconds d = (true, d') ->
  playbackPaused d' = playbackPaused d.
Proof.
  destruct d as [fc asi dev dcd ps pp ss q ct ab bp cl].
  unfold seekToTime, av_seek_frame, isPlaying, pausePlayback, resumePlayback.
  cbn [formatContext playbackStarted playbackPaused audioDevice].
  generalize (to_int64 (binary64_mul (to_double seconds)
                                     (int_to_double AV_TIME_BASE))).
  intros ts.
  destruct fc as [ctx|]; [|discriminate].
  destruct (seek_table ctx ts) as [l|];
    destruct ps, pp; cbn; intros H; inversion H; auto.
Qed.

Lemma fill_loop_clock_on_empty_queue (fuel : nat) :
  forall s s',
    audioFrameQueue (fs_dec s) = [] ->
    fill_loop fuel s = Some s' ->
    currentTime (fs_dec s') = currentTime (fs_dec s).
Proof.
  induction fuel as [|fuel IH]; intros s s' Hq; cbn [fill_loop].
  - destruct (bytesNeeded s >? 0); [discriminate|].
    intros H. inversion H; subst. reflexivity.
  - destruct (bytesNeeded s >? 0).
    + destruct (fill_body s) as [s1|] eqn:Hbody.
      * intros Hrun.
        assert (Hord : clock_ordered (fs_dec s))
          by (unfold clock_ordered; rewrite Hq; exact I).
        destruct (fill_body_clock _ _ Hord Hbody) as (_ & _ & Hwhich).
        destruct (fill_body_frame _ _ Hbody) as (_ & taken & Htaken).
        rewrite Hq in Htaken. symmetry in Htaken.
        apply app_eq_nil in Htaken. destruct Htaken as [_ Hq1].
        rewrite (IH _ _ Hq1 Hrun).
        destruct Hwhich as [Hsame|(f & rest & Hcons & _)];
          [exact Hsame|congruence].
      * intros H. inversion H; subst. reflexivity.
    + intros H. inversion H; subst. reflexivity.
Qed.

Lemma first_block_sets_clock
      (stream : list byte) (len : Z) (d : t) (block : AudioFrame)
      (out : list byte) (d3 : t) :
  0 < len ->
  playbackPaused d = false ->
  audioFrameQueue d = [block] ->
  audioBuffer d = [] ->
  bufferPosition d = 0 ->
  fillAudioBuffer stream len d = Some (out, d3) ->
  currentTime d3 = timestamp block.
Proof.
  intros Hlen Hp Hq Hb Hpos.
  unfold fillAudioBuffer, fill_fuel. rewrite Hp, Hq.
  destruct (fill_loop _ _) as [s'|] eqn:Hrun; [|discriminate].
  intros H. inversion H; subst; clear H.
  revert Hrun. cbn [length]. rewrite Nat.add_comm. cbn [Nat.add fill_loop].
  cbn [bytesNeeded].
  destruct (Z.gtb_spec len 0) as [_|]; [|lia].
  destruct d as [fc asi dev dcd ps pp ss q ct ab bp cl].
  cbn [playbackPaused audioFrameQueue audioBuffer bufferPosition] in *.
  subst pp q ab bp.
  unfold fill_body, refill, buffer_size.
  cbn [fs_dec bufferPosition audioBuffer audioFrameQueue length Z.of_nat].
  change (0 >=? 0) with true. cbn iota.
  intros Hrun.
  apply fill_loop_clock_on_empty_queue in Hrun; [|reflexivity].
  rewrite Hrun. reflexivity.
Qed.

(** X9: what a successful [seekToTime] discards is what is queued at that
    moment.  Taken by itself it leaves nothing to play: a callback that
    comes before anything else is queued puts out silence only and leaves
    the decoder, clock included, as the seek left it.  But the seek does
    not hold back the decoding thread: a frame that thread has in hand is
    converted and queued after the seek, as the only block, and while
    playback runs the next callback plays it and sets the clock to the
    [pts] of that frame times the time base, whatever the target of the
    seek was. *)
Theorem seek_discards_only_what_is_queued
        (seconds : Q) (d d' : t) (frame : AVFrame) (rest : list AVFrame)
        (block : AudioFrame) (stream : list byte) (len : Z) :
  (forall n, bufsize n <= INT_MAX) ->
  seekToTime seconds d = (true, d') ->
  isPlaying d = true ->
  convertAudioFrame bufsize time_base frame fresh_frame
  = Returned (true, block) ->
  0 < len ->
  length stream = Z.to_nat len ->
  remaining d' = []
  /\ fillAudioBuffer stream len d'
     = Some (repeat silence (Z.to_nat len), d')
  /\ getCurrentTime d' = seconds
  /\ exists d2 out d3,
       worker_step bufsize time_base (Receiving (frame :: rest)) d'
       = Some (Receiving rest, d2)
       /\ audioFrameQueue d2 = [block]
       /\ fillAudioBuffer stream len d2 = Some (out, d3)
       /\ out = firstn (Z.to_nat len) (data block)
                ++ repeat silence (Z.to_nat len - length (data block))
       /\ getCurrentTime d3 = (inject_Z (frame_pts frame) * time_base)%Q.
Proof.
  intros Hsize Hseek Hplay Hconv Hlen Hstream.
  destruct (seekToTime_true_flushes _ _ _ Hseek) as (Hq & Hb & Hp & Ht).
  pose proof (seekToTime_true_paused _ _ _ Hseek) as Hpause.
  assert (Hrun : playbackPaused d = false).
  { unfold isPlaying in Hplay. apply andb_prop in Hplay.
    destruct Hplay as [_ Hn]. now destruct (playbackPaused d). }
  rewrite Hrun in Hpause.
  split; [unfold remaining; rewrite Hq, Hb, Hp; reflexivity|].
  split.
  { rewrite (fillAudioBuffer_nothing_to_play stream len d'
               ltac:(lia) Hq Hb Hp).
    unfold memset0. rewrite skipn_all2 by lia. now rewrite app_nil_r. }
  split; [exact Ht|].
  assert (Hfit : Z.of_nat (length (data block)) <= INT_MAX).
  { pose proof (blocks_of_fit bufsize time_base [frame] Hsize) as Hall.
    cbn [blocks_of] in Hall. rewrite Hconv in Hall.
    now inversion Hall. }
  pose proof (convert_timestamp bufsize time_base _ _ _ Hconv) as Hts.
  destruct d' as [fc asi dev dcd ps pp ss q ct ab bp cl].
  cbn [audioFrameQueue audioBuffer bufferPosition playbackPaused] in *.
  subst q ab bp pp.
  set (d2 := mk fc asi dev dcd ps false ss [block] ct [] 0 cl).
  assert (Hstep : worker_step bufsize time_base (Receiving (frame :: rest))
                    (mk fc asi dev dcd ps false ss [] ct [] 0 cl)
                  = Some (Receiving rest, d2)).
  { cbn [worker_step]. unfold receive_one, bind. rewrite Hconv.
    reflexivity. }
  assert (Hsizes : sizes_fit d2).
  { unfold sizes_fit, buffer_size, d2.
    cbn [bufferPosition audioBuffer audioFrameQueue length Z.of_nat].
    split; [lia|]. split; [exact INT_MAX_nonneg|].
    constructor; [exact Hfit|constructor]. }
  destruct (fillAudioBuffer_playing stream len d2 ltac:(lia) Hstream
              Hsizes eq_refl) as (out & d3 & Hfill & Hout & _).
  exists d2, out, d3.
  split; [exact Hstep|]. split; [reflexivity|]. split; [exact Hfill|].
  split.
  - rewrite Hout. unfold remaining, d2.
    cbn [bufferPosition audioBuffer audioFrameQueue Z.to_nat skipn map
         concat app].
    now rewrite app_nil_r.
  - unfold getCurrentTime.
    rewrite (first_block_sets_clock stream len d2 block out d3
               Hlen eq_refl eq_refl eq_refl eq_refl Hfill).
    exact Hts.
Qed.

End SeekAndDecodingThread.

(** ** Stopping a thread that waits *)

Section StopHandshake.

Import AudioDecoder.

Lemma handshake_run_step (s s' : Handshake) :
  handshake_step s s' -> handshake_run s s'.
Proof. intros H. exact (hs_more _ _ _ H (hs_done _)). Qed.

Lemma handshake_run_trans (s1 s2 s3 : Handshake) :
  handshake_run s1 s2 -> handshake_run s2 s3 -> handshake_run s1 s3.
Proof.
  induction 1 as [|s s' s'' Hstep _ IH]; intros H; [exact H|].
  exact (hs_more _ _ _ Hstep (IH H)).
Qed.

(** X24: [stopPlayback] can fail to wake a decoding thread that waits on a
    full queue.  When [notify_all] finds the thread asleep the thread
    wakes, sees the flag and ends, and the join returns.  But the flag is
    stored and the notify sent without [queueMutex], so both can fall
    between the thread's evaluation of the predicate and its going to
    sleep: the notify then finds nobody, the thread falls asleep with the
    predicate true, and while playback is paused nothing else notifies, so
    the thread stays asleep and the join does not return. *)
Theorem stop_wake_up_can_be_lost (d : t) :
  wait_predicate d = false ->
  playbackPaused d = true ->
  (exists s,
      handshake_run (mkHandshake Evaluating StoreShouldStop d) s
      /\ waiter s = Ended
      /\ stopper s = Joined)
  /\ (exists s,
         handshake_run (mkHandshake Evaluating StoreShouldStop d) s
         /\ waiter s = Asleep
         /\ stopper s = Join
         /\ shouldStop (hs_dec s) = true
         /\ wait_predicate (hs_dec s) = true
         /\ forall s', ~ handshake_step s s').
Proof.
  intros Hpred Hpaused.
  set (d1 := set_shouldStop true d).
  set (d2 := set_isDecoding false d1).
  assert (Hstop2 : shouldStop d2 = true) by (destruct d; reflexivity).
  assert (Hpred2 : wait_predicate d2 = true)
    by (unfold wait_predicate; rewrite Hstop2; apply orb_true_r).
  assert (Hpaused2 : playbackPaused d2 = true)
    by (destruct d; exact Hpaused).
  assert (Hfirst : handshake_step (mkHandshake Evaluating StoreShouldStop d)
                     (mkHandshake GoingToSleep StoreShouldStop d)).
  { pose proof (hs_evaluate StoreShouldStop d) as H.
    now rewrite Hpred in H. }
  split.
  - exists (mkHandshake Ended Joined d2).
    split; [|split; reflexivity].
    apply (hs_more _ _ _ Hfirst).
    apply (hs_more _ _ _ (hs_sleep _ _)).
    apply (hs_more _ _ _ (hs_store_stop _ _)).
    apply (hs_more _ _ _ (hs_store_decoding _ _)).
    apply (hs_more _ _ _ (hs_notify_all _ _)). cbn [notified].
    pose proof (hs_evaluate Join d2) as Hagain. rewrite Hpred2 in Hagain.
    apply (hs_more _ _ _ Hagain).
    apply (hs_more _ _ _ (hs_leave Join d2 Hstop2)).
    apply handshake_run_step. apply hs_join.
  - exists (mkHandshake Asleep Join d2).
    split; [|split; [reflexivity|split; [reflexivity|]]].
    + apply (hs_more _ _ _ Hfirst).
      apply (hs_more _ _ _ (hs_store_stop _ _)).
      apply (hs_more _ _ _ (hs_store_decoding _ _)).
      apply (hs_more _ _ _ (hs_notify_all _ _)). cbn [notified].
      apply handshake_run_step. apply hs_sleep.
    + split; [exact Hstop2|]. split; [exact Hpred2|].
      intros s' Hstep. inversion Hstep; subst. congruence.
Qed.

End StopHandshake.

(** ** The video decoder: reading pictures *)

Section VideoFacts.

Import VideoDecoder.

Lemma read_loop_true (l : list VideoRead) :
  forall d d',
    read_loop l d = (true, d') ->
    exists skipped p rest,
      l = skipped ++ VRead p :: rest
      /\ Forall (passed_over (videoStreamIndex d)) skipped
      /\ v_stream_index p = videoStreamIndex d
      /\ 0 <= v_send_ret p
      /\ v_receive_ret p <> AVERROR_EAGAIN
      /\ v_receive_ret p <> AVERROR_EOF
      /\ d' = mk (isOpen d) (endOfStream d) (videoStreamIndex d)
                 (Some (v_frame_pts p)) (timeBase d) rest
                 (v_seek_table d) (v_calls d).
Proof.
  induction l as [|r l IH]; intros d d'; cbn [read_loop].
  - discriminate.
  - destruct r as [p|]; [|discriminate].
    destruct (Z.eqb_spec (v_stream_index p) (videoStreamIndex d))
      as [Hidx|Hidx]; cbn [negb].
    + destruct (Z.ltb_spec (v_send_ret p) 0) as [Hsend|Hsend].
      * intros Hrun. destruct (IH _ _ Hrun)
          as (sk & p' & rest & -> & Hsk & H1 & H2 & H3 & H4 & ->).
        exists (VRead p :: sk), p', rest.
        split; [reflexivity|]. split; [|auto].
        constructor; [cbn; auto|exact Hsk].
      * destruct (Z.eqb_spec (v_receive_ret p) AVERROR_EAGAIN) as [He|He];
          [|destruct (Z.eqb_spec (v_receive_ret p) AVERROR_EOF) as [Hf|Hf]];
          cbn [orb isOpen endOfStream videoStreamIndex frame timeBase
               v_seek_table v_calls].
        -- intros Hrun. destruct (IH _ _ Hrun)
             as (sk & p' & rest & -> & Hsk & H1 & H2 & H3 & H4 & ->).
           exists (VRead p :: sk), p', rest.
           split; [reflexivity|]. split; [|auto].
           constructor; [cbn; auto|exact Hsk].
        -- intros Hrun. destruct (IH _ _ Hrun)
             as (sk & p' & rest & -> & Hsk & H1 & H2 & H3 & H4 & ->).
           exists (VRead p :: sk), p', rest.
           split; [reflexivity|]. split; [|auto].
           constructor; [cbn; auto|exact Hsk].
        -- intros H. inversion H; subst; clear H.
           exists [], p, l. split; [reflexivity|].
           split; [constructor|]. split; [exact Hidx|].
           split; [lia|]. auto.
    + intros Hrun. destruct (IH _ _ Hrun)
        as (sk & p' & rest & -> & Hsk & H1 & H2 & H3 & H4 & ->).
      exists (VRead p :: sk), p', rest.
      split; [reflexivity|]. split; [|auto].
      constructor; [cbn; auto|exact Hsk].
Qed.

Lemma read_loop_passes (skipped : list VideoRead) :
  forall (l : list VideoRead) d,
    Forall (passed_over (videoStreamIndex d)) skipped ->
    exists fr,
      read_loop (skipped ++ l) d
      = read_loop l (mk (isOpen d) (endOfStream d) (videoStreamIndex d) fr
                        (timeBase d) (v_pending d) (v_seek_table d)
                        (v_calls d)).
Proof.
  induction skipped as [|r sk IH]; intros l d Hsk.
  - exists (frame d). destruct d. reflexivity.
  - inversion Hsk as [|r' sk' Hr Hrest]; subst.
    destruct r as [p|]; [|contradiction].
    cbn [app read_loop].
    destruct (Z.eqb_spec (v_stream_index p) (videoStreamIndex d))
      as [Hidx|Hidx]; cbn [negb]; [|exact (IH l d Hrest)].
    destruct (Z.ltb_spec (v_send_ret p) 0) as [Hsend|Hsend];
      [exact (IH l d Hrest)|].
    cbn [passed_over] in Hr.
    assert (Hre : (v_receive_ret p =? AVERROR_EAGAIN)
                  || (v_receive_ret p =? AVERROR_EOF) = true).
    { destruct Hr as [H|[H|[H|H]]];
        [contradiction|lia|rewrite H; reflexivity|rewrite H; reflexivity]. }
    rewrite Hre.
    exact (IH l (mk (isOpen d) (endOfStream d) (videoStreamIndex d)
                    (Some (v_frame_pts p)) (timeBase d) (v_pending d)
                    (v_seek_table d) (v_calls d)) Hrest).
Qed.

(** X15: [getNextFrame] answers [true] exactly when the decoder is open,
    not at the end of the stream, and the packets still to be read are
    some that it passes over (other streams, packets the codec refuses,
    packets with no picture yet) followed by a video packet for which
    [avcodec_receive_frame] answers anything but [EAGAIN] or [EOF], an
    error code included.  It then stands right after that packet and its
    clock reads that packet's frame [pts] times the time base. *)
Theorem getNextFrame_shows_next_picture (d d' : t) :
  getNextFrame d = (true, d') <->
  isOpen d = true
  /\ endOfStream d = false
  /\ exists skipped p rest,
       v_pending d = skipped ++ VRead p :: rest
       /\ Forall (passed_over (videoStreamIndex d)) skipped
       /\ v_stream_index p = videoStreamIndex d
       /\ 0 <= v_send_ret p
       /\ v_receive_ret p <> AVERROR_EAGAIN
       /\ v_receive_ret p <> AVERROR_EOF
       /\ d' = mk true false (videoStreamIndex d) (Some (v_frame_pts p))
                  (timeBase d) rest (v_seek_table d) (v_calls d)
       /\ getCurrentTime d' = (inject_Z (v_frame_pts p) * timeBase d)%Q.
Proof.
  unfold getNextFrame. split.
  - destruct (isOpen d) eqn:Hopen; [|discriminate].
    destruct (endOfStream d) eqn:Hend; [discriminate|].
    cbn [negb orb]. intros Hrun.
    split; [reflexivity|]. split; [reflexivity|].
    destruct (read_loop_true _ _ _ Hrun)
      as (sk & p & rest & Hl & Hsk & H1 & H2 & H3 & H4 & ->).
    exists sk, p, rest. rewrite Hopen, Hend. repeat split; auto.
  - intros (Hopen & Hend & sk & p & rest & Hl & Hsk & H1 & H2 & H3 & H4
            & -> & _).
    rewrite Hopen, Hend, Hl. cbn [negb orb].
    destruct (read_loop_passes sk (VRead p :: rest) d Hsk) as [fr ->].
    cbn [read_loop videoStreamIndex isOpen endOfStream frame timeBase
         v_seek_table v_calls].
    rewrite H1, Z.eqb_refl. cbn [negb].
    destruct (Z.ltb_spec (v_send_ret p) 0) as [Hs|Hs]; [lia|].
    destruct (Z.eqb_spec (v_receive_ret p) AVERROR_EAGAIN); [contradiction|].
    destruct (Z.eqb_spec (v_receive_ret p) AVERROR_EOF); [contradiction|].
    cbn [orb]. rewrite Hopen, Hend. reflexivity.
Qed.

(** X16: when only packets that are passed over are left, [getNextFrame]
    reads them all, answers [false] and records the end of the stream.
    From then on it answers [false] without reading or changing anything,
    until a seek succeeds: that clears the mark and puts the demuxer where
    the seek leads, which is the place the demuxer has for the [int64_t]
    value of the binary64 quotient [seconds / timeBase]. *)
Theorem getNextFrame_end_of_stream (d : t) :
  isOpen d = true ->
  endOfStream d = false ->
  Forall (passed_over (videoStreamIndex d)) (v_pending d) ->
  exists d',
    getNextFrame d = (false, d')
    /\ endOfStream d' = true
    /\ v_pending d' = []
    /\ getNextFrame d' = (false, d')
    /\ forall seconds l,
         v_seek_table d
           (to_int64 (binary64_div (to_double seconds)
                                   (to_double (timeBase d)))) = Some l ->
         exists d'',
           seekToTime seconds d' = (true, d'')
           /\ endOfStream d'' = false
           /\ v_pending d'' = l
           /\ getNextFrame d'' = read_loop l d''.
Proof.
  intros Hopen Hend Hsk.
  unfold getNextFrame at 1. rewrite Hopen, Hend. cbn [negb orb].
  destruct (read_loop_passes (v_pending d) [] d Hsk) as [fr Hrun].
  rewrite app_nil_r in Hrun. rewrite Hrun. cbn [read_loop].
  cbn [isOpen endOfStream videoStreamIndex frame timeBase v_seek_table
       v_calls].
  eexists. split; [reflexivity|].
  split; [reflexivity|]. split; [reflexivity|].
  split.
  - unfold getNextFrame. cbn [isOpen endOfStream]. rewrite Hopen.
    reflexivity.
  - intros seconds l Hseek. unfold seekToTime.
    cbn [isOpen endOfStream videoStreamIndex frame timeBase v_seek_table
         v_calls]. rewrite Hopen, Hseek. cbn [negb].
    eexists. split; [reflexivity|].
    split; [reflexivity|]. split; [reflexivity|].
    unfold getNextFrame. cbn [isOpen endOfStream v_pending negb orb].
    reflexivity.
Qed.

(** X17: a read error other than the end of the file makes
    [getNextFrame] answer [false] without recording the end of the
    stream: the packets after the error are still to be read, and the
    next call reads on from there. *)
Theorem getNextFrame_read_error (d : t) (skipped rest : list VideoRead) :
  isOpen d = true ->
  endOfStream d = false ->
  v_pending d = skipped ++ VReadError :: rest ->
  Forall (passed_over (videoStreamIndex d)) skipped ->
  exists d',
    getNextFrame d = (false, d')
    /\ endOfStream d' = false
    /\ isOpen d' = true
    /\ v_pending d' = rest
    /\ getNextFrame d' = read_loop rest d'.
Proof.
  intros Hopen Hend Hl Hsk.
  unfold getNextFrame at 1. rewrite Hopen, Hend, Hl. cbn [negb orb].
  destruct (read_loop_passes skipped (VReadError :: rest) d Hsk)
    as [fr ->].
  cbn [read_loop isOpen endOfStream videoStreamIndex frame timeBase
       v_seek_table v_calls].
  eexists. split; [reflexivity|].
  cbn [isOpen endOfStream v_pending].
  split; [exact Hend|]. split; [exact Hopen|]. split; [reflexivity|].
  unfold getNextFrame. cbn [isOpen endOfStream v_pending].
  rewrite Hopen, Hend. reflexivity.
Qed.

End VideoFacts.

(** ** The player: transport, seeking and volume *)

Section PlayerExtras.

Import MediaPlayer.

Lemma startPlayback_started (dev : Z) (a : AudioDecoder.t) :
  AudioDecoder.playbackStarted a = true ->
  AudioDecoder.startPlayback dev a = (true, a).
Proof.
  intros H. unfold AudioDecoder.startPlayback. rewrite H. reflexivity.
Qed.

Lemma pausePlayback_paused (a : AudioDecoder.t) :
  AudioDecoder.playbackPaused a = true ->
  AudioDecoder.pausePlayback a = a.
Proof.
  intros H. unfold AudioDecoder.pausePlayback. rewrite H.
  rewrite andb_false_r. reflexivity.
Qed.

Lemma pausePlayback_pauses (a : AudioDecoder.t) :
  AudioDecoder.isPlaying a = true ->
  AudioDecoder.playbackStarted (AudioDecoder.pausePlayback a) = true
  /\ AudioDecoder.playbackPaused (AudioDecoder.pausePlayback a) = true.
Proof.
  destruct a as [fc asi dev dcd ps pp ss q ct ab bp cl].
  unfold AudioDecoder.isPlaying, AudioDecoder.pausePlayback.
  cbn [AudioDecoder.playbackStarted AudioDecoder.playbackPaused].
  intros H. rewrite H. apply andb_prop in H. destruct H as [-> _].
  split; reflexivity.
Qed.

Lemma seekToTime_keeps_paused (seconds : Q) (a : AudioDecoder.t) :
  AudioDecoder.playbackStarted a = true ->
  AudioDecoder.playbackPaused a = true ->
  AudioDecoder.playbackStarted (snd (AudioDecoder.seekToTime seconds a)) = true
  /\ AudioDecoder.playbackPaused (snd (AudioDecoder.seekToTime seconds a))
     = true.
Proof.
  destruct (AudioDecoder.seekToTime seconds a) as [ok a'] eqn:Hrun.
  cbn [snd]. revert Hrun.
  destruct a as [fc asi dev dcd ps pp ss q ct ab bp cl].
  cbn [AudioDecoder.playbackStarted AudioDecoder.playbackPaused].
  intros Hrun -> ->. revert Hrun.
  unfold AudioDecoder.seekToTime, av_seek_frame, AudioDecoder.isPlaying,
    AudioDecoder.pausePlayback, AudioDecoder.resumePlayback.
  cbn [AudioDecoder.formatContext AudioDecoder.playbackStarted
       AudioDecoder.playbackPaused AudioDecoder.audioDevice].
  generalize (to_int64 (binary64_mul (to_double seconds)
                                     (int_to_double AV_TIME_BASE))).
  intros ts.
  destruct fc as [ctx|]; [|intros H; inversion H; subst; auto].
  destruct (seek_table ctx ts) as [l|]; cbn;
    intros H; inversion H; subst; auto.
Qed.

Lemma call_step_keeps_paused (c : Call) (m : t) :
  hasAudio m = true ->
  AudioDecoder.playbackStarted (audioDecoder m) = true ->
  AudioDecoder.playbackPaused (audioDecoder m) = true ->
  hasAudio (call_step c m) = true
  /\ AudioDecoder.playbackStarted (audioDecoder (call_step c m)) = true
  /\ AudioDecoder.playbackPaused (audioDecoder (call_step c m)) = true.
Proof.
  destruct m as [pl mu vol hv ha v a].
  cbn [hasAudio audioDecoder]. intros -> Hps Hpp.
  destruct c as [dev| |seconds]; cbn [call_step].
  - unfold play. cbn [hasVideo hasAudio playing audioDecoder].
    rewrite (startPlayback_started dev a Hps).
    destruct (_ && _); cbn; auto.
  - unfold pause. cbn [hasVideo hasAudio playing audioDecoder].
    rewrite (pausePlayback_paused a Hpp).
    destruct (_ && _); cbn; auto.
  - unfold seekToTime. cbn [hasVideo hasAudio videoDecoder audioDecoder].
    rewrite andb_false_r.
    destruct (seekToTime_keeps_paused seconds a Hps Hpp) as [H1 H2].
    destruct hv;
      [destruct (VideoDecoder.seekToTime seconds v) as [r' v']|];
      cbn [hasVideo hasAudio videoDecoder audioDecoder set_videoDecoder
           set_audioDecoder playing muted volume];
      destruct (AudioDecoder.seekToTime seconds a) as [r a'];
      cbn [snd hasAudio audioDecoder set_audioDecoder] in *; auto.
Qed.

Lemma run_keeps_paused (cs : list Call) :
  forall m,
    hasAudio m = true ->
    AudioDecoder.playbackStarted (audioDecoder m) = true ->
    AudioDecoder.playbackPaused (audioDecoder m) = true ->
    hasAudio (run cs m) = true
    /\ AudioDecoder.playbackStarted (audioDecoder (run cs m)) = true
    /\ AudioDecoder.playbackPaused (audioDecoder (run cs m)) = true.
Proof.
  unfold run. induction cs as [|c cs IH]; intros m Ha Hps Hpp;
    [cbn; auto|].
  cbn [fold_left].
  destruct (call_step_keeps_paused c m Ha Hps Hpp) as (H1 & H2 & H3).
  exact (IH _ H1 H2 H3).
Qed.

(** X18: the player never resumes the audio it has paused.  After
    [pause()] on playing audio, whatever [play()], [pause()] and
    [seekToTime()] calls follow, a [play()] leaves the player reporting
    that it plays while the audio decoder is still paused: each device
    callback yields silence only and changes nothing. *)
Theorem play_after_pause_leaves_audio_paused
        (m : t) (cs : list Call) (dev : Z) :
  hasAudio m = true ->
  playing m = true ->
  AudioDecoder.isPlaying (audioDecoder m) = true ->
  isPlaying (run (cs ++ [CallPlay dev]) (pause m)) = true
  /\ AudioDecoder.isPlaying
       (audioDecoder (run (cs ++ [CallPlay dev]) (pause m))) = false
  /\ forall stream len,
       AudioDecoder.fillAudioBuffer stream len
         (audioDecoder (run (cs ++ [CallPlay dev]) (pause m)))
       = Some (memset0 stream len,
               audioDecoder (run (cs ++ [CallPlay dev]) (pause m))).
Proof.
  intros Ha Hpl Hplay.
  assert (Hp : hasAudio (pause m) = true
               /\ AudioDecoder.playbackStarted (audioDecoder (pause m)) = true
               /\ AudioDecoder.playbackPaused (audioDecoder (pause m)) = true).
  { destruct (pausePlayback_pauses _ Hplay) as [H1 H2].
    destruct m as [pl mu vol hv ha v a].
    cbn [hasAudio playing audioDecoder] in *. subst.
    unfold pause. cbn [hasVideo hasAudio playing audioDecoder].
    rewrite orb_true_r. cbn. auto. }
  destruct Hp as (H1 & H2 & H3).
  destruct (run_keeps_paused cs _ H1 H2 H3) as (H4 & H5 & H6).
  unfold run in *. rewrite fold_left_app. cbn [fold_left call_step].
  destruct (fold_left _ cs (pause m)) as [pl mu vol hv ha v a].
  cbn [hasAudio audioDecoder] in H4, H5, H6. subst ha.
  unfold play, isPlaying. cbn [hasVideo hasAudio playing audioDecoder].
  rewrite (startPlayback_started dev a H5), orb_true_r.
  assert (Hsilent : AudioDecoder.isPlaying a = false
                    /\ forall stream len,
                         AudioDecoder.fillAudioBuffer stream len a
                         = Some (memset0 stream len, a)).
  { split.
    - unfold AudioDecoder.isPlaying. rewrite H6. apply andb_false_r.
    - intros stream len. unfold AudioDecoder.fillAudioBuffer.
      rewrite H6. reflexivity. }
  destruct pl; cbn; auto.
Qed.

(** X19: a seek on a file with both streams is not all or nothing.  When
    the video seek fails and the audio seek succeeds, [seekToTime]
    answers [false], yet the audio has moved: its clock reads the target
    and its queue is empty, while the video stands where it stood. *)
Theorem seekToTime_moves_audio_alone (seconds : Q) (m : t) :
  hasVideo m = true ->
  hasAudio m = true ->
  fst (VideoDecoder.seekToTime seconds (videoDecoder m)) = false ->
  fst (AudioDecoder.seekToTime seconds (audioDecoder m)) = true ->
  fst (seekToTime seconds m) = false
  /\ AudioDecoder.getCurrentTime (audioDecoder (snd (seekToTime seconds m)))
     = seconds
  /\ AudioDecoder.audioFrameQueue (audioDecoder (snd (seekToTime seconds m)))
     = []
  /\ VideoDecoder.v_pending (videoDecoder (snd (seekToTime seconds m)))
     = VideoDecoder.v_pending (videoDecoder m)
  /\ VideoDecoder.getCurrentTime (videoDecoder (snd (seekToTime seconds m)))
     = VideoDecoder.getCurrentTime (videoDecoder m).
Proof.
  destruct m as [pl mu vol hv ha v a].
  cbn [hasVideo hasAudio videoDecoder audioDecoder].
  intros -> -> Hv Ha.
  unfold seekToTime. cbn [hasVideo hasAudio videoDecoder audioDecoder negb andb].
  destruct (AudioDecoder.seekToTime seconds a) as [ra a'] eqn:Hrun.
  cbn [fst] in Ha. subst ra.
  destruct (seekToTime_true_flushes _ _ _ Hrun) as (Hq & _ & _ & Ht).
  assert (Hvideo :
    VideoDecoder.v_pending (snd (VideoDecoder.seekToTime seconds v))
    = VideoDecoder.v_pending v
    /\ VideoDecoder.getCurrentTime (snd (VideoDecoder.seekToTime seconds v))
       = VideoDecoder.getCurrentTime v).
  { revert Hv. unfold VideoDecoder.seekToTime.
    destruct v as [vo ve vi vf vt vp vs vc].
    cbn [VideoDecoder.isOpen VideoDecoder.endOfStream
         VideoDecoder.videoStreamIndex VideoDecoder.frame
         VideoDecoder.timeBase VideoDecoder.v_pending
         VideoDecoder.v_seek_table VideoDecoder.v_calls].
    destruct vo; cbn [negb]; [|auto].
    destruct (vs _); [discriminate|]. cbn. auto. }
  destruct (VideoDecoder.seekToTime seconds v) as [rv v'].
  cbn [fst snd] in *. subst rv.
  cbn [hasVideo hasAudio audioDecoder videoDecoder set_videoDecoder
       set_audioDecoder playing muted volume andb].
  rewrite Hrun.
  cbn [fst snd audioDecoder videoDecoder set_audioDecoder].
  unfold AudioDecoder.getCurrentTime. destruct Hvideo. auto.
Qed.

(** X20: volume and mute are kept by the player only.  [setVolume],
    [mute] and [unmute] never reach the audio decoder, so what the device
    callback hands out is the same at any volume, muted or not; they
    leave the transport state alone as well, and [unmute] undoes
    [mute]. *)
Theorem volume_and_mute_do_not_reach_audio (v : spec_float) (m : t) :
  (forall m', In m' [setVolume v m; mute m; unmute m] ->
     audioDecoder m' = audioDecoder m
     /\ videoDecoder m' = videoDecoder m
     /\ isPlaying m' = isPlaying m)
  /\ isMuted (mute m) = true
  /\ isMuted (unmute m) = false
  /\ getVolume (mute m) = getVolume m
  /\ getVolume (unmute m) = getVolume m
  /\ isMuted (setVolume v m) = isMuted m
  /\ unmute (mute m) = unmute m
  /\ mute (unmute m) = mute m.
Proof.
  destruct m as [pl mu vol hv ha vd a].
  unfold setVolume, mute, unmute, isMuted, getVolume, isPlaying, set_muted.
  cbn [playing muted volume hasVideo hasAudio videoDecoder audioDecoder].
  split.
  - intros m' [<-|[<-|[<-|[]]]]; destruct mu; cbn; auto.
  - destruct mu; cbn; auto 10.
Qed.

End PlayerExtras.

(** ** File names *)

Section FileNameFacts.

Import Stdlib.Strings.Ascii Stdlib.Strings.String FileNames.

Local Open Scope string_scope.

Lemma find_last_from_dot_free (s : string) :
  forall i found, dot_free s -> find_last_from "." s i found = found.
Proof.
  induction s as [|a s IH]; intros i found H; [reflexivity|].
  destruct H as [Ha Hs]. cbn [find_last_from].
  destruct (Ascii.eqb_spec a ".") as [->|_]; [contradiction|].
  now apply IH.
Qed.

Lemma find_last_from_dotted (stem : string) :
  forall ext i found,
    dot_free ext ->
    find_last_from "." (stem ++ String "." ext) i found
    = i + Z.of_nat (length stem).
Proof.
  induction stem as [|a stem IH]; intros ext i found Hext.
  - cbn [append find_last_from length]. rewrite Ascii.eqb_refl.
    rewrite find_last_from_dot_free by exact Hext. cbn. lia.
  - cbn [append find_last_from]. rewrite IH by exact Hext.
    cbn [length]. lia.
Qed.

Lemma substring_all (s : string) : substring 0 (length s) s = s.
Proof.
  induction s as [|a s IH]; [reflexivity|].
  cbn [length substring]. now rewrite IH.
Qed.

Lemma substring_skip (c : ascii) (stem : string) :
  forall ext,
    substring (length stem + 1) (length ext) (stem ++ String c ext) = ext.
Proof.
  induction stem as [|a stem IH]; intros ext;
    cbn [length append Nat.add substring].
  - apply substring_all.
  - apply IH.
Qed.

Lemma length_app (s1 s2 : string) :
  length (s1 ++ s2) = (length s1 + length s2)%nat.
Proof.
  induction s1 as [|a s1 IH]; [reflexivity|].
  cbn [append length]. now rewrite IH.
Qed.

Lemma extension_dotted (stem ext : string) :
  dot_free ext ->
  Z.of_nat (length stem) < npos ->
  extension (stem ++ String "." ext) = transform_tolower ext.
Proof.
  intros Hext Hlen. unfold extension, find_last_of, substr.
  rewrite find_last_from_dotted by exact Hext.
  assert (Hn : npos = 2^64 - 1) by reflexivity.
  rewrite Z.mod_small by lia.
  replace (Z.to_nat (0 + Z.of_nat (length stem) + 1))
    with (length stem + 1)%nat by lia.
  rewrite length_app. cbn [length].
  replace (length stem + S (length ext) - (length stem + 1))%nat
    with (length ext) by lia.
  now rewrite substring_skip.
Qed.

Lemma extension_dotless (name : string) :
  dot_free name -> extension name = transform_tolower name.
Proof.
  intros Hname. unfold extension, find_last_of, substr.
  rewrite find_last_from_dot_free by exact Hname.
  replace ((npos + 1) mod 2^64) with 0 by reflexivity.
  cbn [Z.to_nat]. rewrite Nat.sub_0_r. now rewrite substring_all.
Qed.

(** X21: a file name counts as a video file exactly when the text after
    its last dot, in lower case, is one of the eight video extensions,
    and as an audio file exactly when it is one of the eight audio
    extensions; what stands before the last dot and the case of the
    letters make no difference. *)
Theorem classified_by_last_extension (stem ext : string) :
  dot_free ext ->
  Z.of_nat (length stem) < npos ->
  extension (stem ++ String "." ext) = transform_tolower ext
  /\ (isVideoFile (stem ++ String "." ext) = true <->
      In (transform_tolower ext)
         ["mp4"; "avi"; "mkv"; "mov"; "wmv"; "flv"; "webm"; "m4v"])
  /\ (isAudioFile (stem ++ String "." ext) = true <->
      In (transform_tolower ext)
         ["mp3"; "wav"; "flac"; "ogg"; "aac"; "m4a"; "wma"; "opus"]).
Proof.
  intros Hext Hlen.
  pose proof (extension_dotted stem ext Hext Hlen) as He.
  split; [exact He|].
  unfold isVideoFile, isAudioFile. rewrite He.
  generalize (transform_tolower ext). intros e.
  rewrite !orb_true_iff, !String.eqb_eq. cbn [In].
  split; split; intros H;
    repeat match goal with
           | H : _ \/ _ |- _ => destruct H as [H|H]
           end; subst; auto 20; contradiction.
Qed.

(** X22: a name without a dot is taken whole as its own extension
    ([find_last_of] answers [npos], and [npos + 1] is 0): it is
    classified like any name that ends in a dot followed by it. *)
Theorem dotless_name_is_its_extension (stem name : string) :
  dot_free name ->
  Z.of_nat (length stem) < npos ->
  extension name = transform_tolower name
  /\ isVideoFile name = isVideoFile (stem ++ String "." name)
  /\ isAudioFile name = isAudioFile (stem ++ String "." name).
Proof.
  intros Hname Hlen.
  pose proof (extension_dotless name Hname) as H1.
  pose proof (extension_dotted stem name Hname Hlen) as H2.
  unfold isVideoFile, isAudioFile. rewrite H1, H2. auto.
Qed.

(** X23: no file name counts both as a video file and as an audio
    file. *)
Theorem not_both_video_and_audio (filename : string) :
  isVideoFile filename = true -> isAudioFile filename = false.
Proof.
  unfold isVideoFile, isAudioFile.
  generalize (extension filename). intros e H.
  rewrite !orb_true_iff, !String.eqb_eq in H.
  repeat match goal with
         | H : _ \/ _ |- _ => destruct H as [H|H]
         end; subst; reflexivity.
Qed.

End FileNameFacts.

(** ** The theorems above on the example inputs *)

Section Instances.

Import AudioDecoder.

Ltac one_block_fits :=
  let Hq := fresh "Hq" in
  assert (Hq : audioFrameQueue Examples.one_block_queued
               = [mkAudioFrame [x01; x02; x03; x04] 3 (3 # 10)])
    by (vm_compute; reflexivity);
  unfold sizes_fit; rewrite Hq;
  split; [vm_compute; discriminate|];
  split; [vm_compute; discriminate|];
  constructor; [vm_compute; discriminate|constructor].

Ltac started_fits :=
  let Hq := fresh "Hq" in
  assert (Hq : audioFrameQueue (Examples.started [] Examples.no_seek) = [])
    by (vm_compute; reflexivity);
  unfold sizes_fit; rewrite Hq;
  split; [vm_compute; discriminate|];
  split; [vm_compute; discriminate|constructor].

Lemma fillAudioBuffer_only_consumes_witness :
  same_control Examples.one_block_queued Examples.one_block_played
  /\ exists taken,
       audioFrameQueue Examples.one_block_queued
       = taken ++ audioFrameQueue Examples.one_block_played.
Proof.
  exact (fillAudioBuffer_only_consumes
           Examples.stale_stream 8 Examples.one_block_queued
           Examples.one_block_out Examples.one_block_played
           ltac:(vm_compute; reflexivity)).
Defined.

Lemma callbacks_compose_witness :
  exists out1 d1 out2 d2 out d12,
    fillAudioBuffer [x7f; x7f] 2 Examples.one_block_queued = Some (out1, d1)
    /\ fillAudioBuffer [x7f; x7f] 2 d1 = Some (out2, d2)
    /\ fillAudioBuffer [x7f; x7f; x7f; x7f] (2 + 2) Examples.one_block_queued
       = Some (out, d12)
    /\ out = out1 ++ out2
    /\ remaining d12 = remaining d2.
Proof.
  exact (callbacks_compose [x7f; x7f] [x7f; x7f] [x7f; x7f; x7f; x7f] 2 2
           Examples.one_block_queued
           ltac:(lia) ltac:(lia) eq_refl eq_refl eq_refl
           ltac:(one_block_fits) ltac:(vm_compute; reflexivity)).
Defined.

Lemma blocks_play_in_push_order_witness :
  exists out d',
    fillAudioBuffer Examples.stale_stream 8
      (push_all Examples.two_blocks (Examples.started [] Examples.no_seek))
    = Some (out, d')
    /\ length out = 8%nat.
Proof.
  destruct (blocks_play_in_push_order Examples.stale_stream 8
              Examples.two_blocks (Examples.started [] Examples.no_seek))
    as (out & d' & Hrun & Hout & _).
  - lia.
  - reflexivity.
  - started_fits.
  - vm_compute; reflexivity.
  - unfold Examples.two_blocks.
    repeat (constructor; [vm_compute; discriminate|]). constructor.
  - exists out, d'. split; [exact Hrun|].
    rewrite Hout. vm_compute. reflexivity.
Defined.

Lemma seek_discards_only_what_is_queued_witness :
  exists d2 out d3,
    worker_step Examples.buffer_size_checked Examples.tick
      (Receiving [Examples.good_frame 1]) Examples.after_seek
    = Some (Receiving [], d2)
    /\ fillAudioBuffer Examples.stale_stream 8 d2 = Some (out, d3)
    /\ getCurrentTime d3 = (inject_Z 1 * Examples.tick)%Q.
Proof.
  destruct (seek_discards_only_what_is_queued
              Examples.buffer_size_checked Examples.tick 7
              (Examples.started [] Examples.seek_to_key_point)
              Examples.after_seek (Examples.good_frame 1) []
              (mkAudioFrame [x01; x02; x03; x04; x05; x06; x07; x08] 1
                            (inject_Z 1 * Examples.tick))
              Examples.stale_stream 8)
    as (_ & _ & _ & d2 & out & d3 & H1 & _ & H2 & _ & H3).
  - intros n. unfold Examples.buffer_size_checked.
    destruct (n <=? 0); [vm_compute; discriminate|].
    destruct (Z.leb_spec (4 * n) INT_MAX) as [H|H];
      [exact H|vm_compute; discriminate].
  - vm_compute; reflexivity.
  - vm_compute; reflexivity.
  - vm_compute; reflexivity.
  - lia.
  - reflexivity.
  - exists d2, out, d3. split; [exact H1|]. split; [exact H2|exact H3].
Defined.


Lemma decodeNextFrame_appends_witness :
  length (audioFrameQueue Examples.after_seek_decoded) = 2%nat.
Proof.
  destruct (decodeNextFrame_appends Examples.buffer_size_s16 Examples.tick
              Examples.after_seek true Examples.after_seek_decoded
              ltac:(vm_compute; reflexivity))
    as (ctx & ctx' & Hctx & _ & _ & _ & Hq & _).
  assert (Hc : formatContext Examples.after_seek
               = Some (mkAVFormatContext
                         [ReadPacket
                            (Examples.audio_packet
                               [Examples.good_frame 69;
                                Examples.good_frame 70])]
                         Examples.seek_to_key_point))
    by (vm_compute; reflexivity).
  rewrite Hc in Hctx. inversion Hctx; subst ctx. clear Hctx.
  rewrite Hq. vm_compute. reflexivity.
Defined.

Lemma session_keeps_coherent_witness :
  coherent
    (session Examples.buffer_size_checked Examples.tick
       Examples.busy_session
       (Examples.opened Examples.burst_stream Examples.seek_to_key_point)).
Proof.
  apply session_keeps_coherent.
  - intros n. unfold Examples.buffer_size_checked.
    destruct (n <=? 0); [vm_compute; discriminate|].
    destruct (Z.leb_spec (4 * n) INT_MAX) as [H|H];
      [exact H|vm_compute; discriminate].
  - unfold coherent, sizes_fit, buffer_size, Examples.opened.
    cbn [bufferPosition audioBuffer audioFrameQueue playbackStarted
         playbackPaused audioDevice length Z.of_nat].
    split; [split; [lia|split; [vm_compute; discriminate|constructor]]|].
    split; [lia|]. split; [discriminate|].
    split; [discriminate|]. intros H. now contradiction H.
Defined.

Lemma clock_monotone_when_source_sorted_witness :
  nondecreasing_from
    (currentTime (Examples.started Examples.burst_stream Examples.no_seek))
    (session_trace Examples.buffer_size_s16 Examples.tick
       Examples.playing_session
       (Examples.started Examples.burst_stream Examples.no_seek)).
Proof.
  apply (clock_monotone_when_source_sorted
           Examples.buffer_size_s16 Examples.tick
           Examples.playing_session
           (Examples.started Examples.burst_stream Examples.no_seek) 0).
  - vm_compute; discriminate.
  - vm_compute; exact I.
  - vm_compute; discriminate.
  - vm_compute. repeat split; discriminate.
  - unfold Examples.playing_session.
    repeat (constructor; [exact I|]). constructor.
Defined.

Lemma getNextFrame_end_of_stream_witness :
  exists d' d'',
    VideoDecoder.getNextFrame Examples.video_read_out = (false, d')
    /\ VideoDecoder.endOfStream d' = true
    /\ VideoDecoder.getNextFrame d' = (false, d')
    /\ VideoDecoder.seekToTime (12 # 100) d' = (true, d'')
    /\ VideoDecoder.endOfStream d'' = false
    /\ VideoDecoder.v_pending d''
       = [VideoDecoder.VRead (VideoDecoder.mkVideoPacket 0 0 0 3)].
Proof.
  destruct (getNextFrame_end_of_stream Examples.video_read_out)
    as (d' & H1 & H2 & _ & H3 & Hseek).
  - reflexivity.
  - reflexivity.
  - vm_compute; constructor.
  - destruct (Hseek (12 # 100)
                [VideoDecoder.VRead (VideoDecoder.mkVideoPacket 0 0 0 3)]
                ltac:(vm_compute; reflexivity))
      as (d'' & H4 & H5 & H6 & _).
    exists d', d''. auto 10.
Defined.

Lemma getNextFrame_read_error_witness :
  exists d',
    VideoDecoder.getNextFrame Examples.video_read_error = (false, d')
    /\ VideoDecoder.endOfStream d' = false
    /\ VideoDecoder.v_pending d'
       = [VideoDecoder.VRead (VideoDecoder.mkVideoPacket 0 0 0 100)].
Proof.
  destruct (getNextFrame_read_error Examples.video_read_error
              [VideoDecoder.VRead (VideoDecoder.mkVideoPacket 1 0 0 7)]
              [VideoDecoder.VRead (VideoDecoder.mkVideoPacket 0 0 0 100)])
    as (d' & H1 & H2 & _ & H3 & _).
  - reflexivity.
  - reflexivity.
  - reflexivity.
  - constructor; [|constructor]. left. vm_compute. discriminate.
  - exists d'. auto.
Defined.

Lemma play_after_pause_witness :
  MediaPlayer.isPlaying
    (MediaPlayer.run
       ([MediaPlayer.CallSeek 3; MediaPlayer.CallPause]
        ++ [MediaPlayer.CallPlay 2])
       (MediaPlayer.pause Examples.playing_audio_player)) = true
  /\ isPlaying
       (MediaPlayer.audioDecoder
          (MediaPlayer.run
             ([MediaPlayer.CallSeek 3; MediaPlayer.CallPause]
              ++ [MediaPlayer.CallPlay 2])
             (MediaPlayer.pause Examples.playing_audio_player))) = false.
Proof.
  destruct (play_after_pause_leaves_audio_paused
              Examples.playing_audio_player
              [MediaPlayer.CallSeek 3; MediaPlayer.CallPause] 2)
    as (H1 & H2 & _).
  - reflexivity.
  - reflexivity.
  - vm_compute; reflexivity.
  - split; assumption.
Defined.

Lemma seekToTime_moves_audio_alone_witness :
  fst (MediaPlayer.seekToTime 7 Examples.half_seekable_player) = false
  /\ getCurrentTime
       (MediaPlayer.audioDecoder
          (snd (MediaPlayer.seekToTime 7 Examples.half_seekable_player)))
     = 7%Q.
Proof.
  destruct (seekToTime_moves_audio_alone 7 Examples.half_seekable_player)
    as (H1 & H2 & _).
  - reflexivity.
  - reflexivity.
  - vm_compute; reflexivity.
  - vm_compute; reflexivity.
  - split; assumption.
Defined.

Lemma stop_wake_up_can_be_lost_witness :
  exists s,
    handshake_run (mkHandshake Evaluating StoreShouldStop Examples.paused_full)
                  s
    /\ waiter s = Asleep
    /\ stopper s = Join
    /\ shouldStop (hs_dec s) = true.
Proof.
  destruct (stop_wake_up_can_be_lost Examples.paused_full)
    as (_ & s & Hrun & Hw & Hs & Hstop & _).
  - vm_compute; reflexivity.
  - vm_compute; reflexivity.
  - exists s. auto.
Defined.

End Instances.

Section FileNameInstances.

Import Stdlib.Strings.Ascii Stdlib.Strings.String FileNames.

Local Open Scope string_scope.

Lemma classified_by_last_extension_witness :
  isVideoFile ("movie" ++ String "." "MKV") = true.
Proof.
  destruct (classified_by_last_extension "movie" "MKV")
    as (_ & [_ Hv] & _).
  - vm_compute. repeat split; discriminate.
  - vm_compute; reflexivity.
  - apply Hv. vm_compute. auto 10.
Defined.

Lemma dotless_name_is_its_extension_witness :
  isVideoFile "mkv" = isVideoFile ("a" ++ String "." "mkv").
Proof.
  exact (proj1 (proj2 (dotless_name_is_its_extension "a" "mkv"
                         ltac:(vm_compute; repeat split; discriminate)
                         ltac:(vm_compute; reflexivity)))).
Defined.

Lemma not_both_video_and_audio_witness :
  isAudioFile "clip.mp4" = false.
Proof.
  exact (not_both_video_and_audio "clip.mp4" ltac:(vm_compute; reflexivity)).
Defined.

End FileNameInstances.
